(** * Cards War: a shallow embedding of [cards_war.py] and its properties

    The three classes of the program ([Card], [Player], [cardsWar]) are
    embedded as records and functions.  Mutation of the game object and of
    the players it owns is explicit state passing over a [World]; Python
    exceptions are the [Raise] outcome, which keeps the world as it was when
    the exception was raised.  The module-level random generator is a tape
    of naturals read by [randbelow]; every run of the generator is some
    tape, so a statement over all tapes covers every possible shuffle. *)

From stdpp Require Import base numbers list strings pretty sorting.
From Stdlib Require Import ZArith Lia.

Set Default Proof Using "Type".

(** ** Card *)

Record Card := mkCard { number : Z; color : string }.

(** [Card()]: the default arguments give the rank-0 card. *)
Definition Card_default : Card := mkCard 0 "0".

(** [Card.__gt__] and [Card.__eq__] compare the rank only. *)
Definition Card_gt (a b : Card) : bool := (number b <? number a)%Z.
Definition Card_eq (a b : Card) : bool := (number a =? number b)%Z.

(** ** The random generator

    [random.shuffle] of the Python library draws [randbelow (i + 1)] for
    [i] from [len x - 1] down to [1] and exchanges [x[i]] and [x[j]]. *)

Record Rng := mkRng { tape : nat -> nat; pos : nat }.

Definition randbelow (n : nat) (g : Rng) : nat * Rng :=
  (tape g (pos g) `mod` n, mkRng (tape g) (S (pos g))).

(** [x[i], x[j] = x[j], x[i]]; both indices are in range at every call. *)
Definition swap (x : list Card) (i j : nat) : list Card :=
  match x !! i, x !! j with
  | Some xi, Some xj => <[j := xi]> (<[i := xj]> x)
  | _, _ => x
  end.

Fixpoint shuffle_from (i : nat) (x : list Card) (g : Rng) : list Card * Rng :=
  match i with
  | 0 => (x, g)
  | S i' => let '(j, g') := randbelow (S i) g in shuffle_from i' (swap x i j) g'
  end.

Definition shuffle (x : list Card) (g : Rng) : list Card * Rng :=
  shuffle_from (length x - 1) x g.

(** ** Player *)

Record Player := mkPlayer {
  name : string;
  hand : list Card;
  won_cards : list Card
}.

(** [deque(l, maxlen=56)] keeps the last 56 items; [extend] on a bounded
    deque discards from the left end. *)
Definition maxlen : nat := 56.
Definition deque (l : list Card) : list Card := drop (length l - maxlen) l.
Definition deque_extend (h l : list Card) : list Card := deque (h ++ l).

Definition Player_init (n : string) : Player := mkPlayer n (deque []) [].

(** The [score] property. *)
Definition Player_score (p : Player) : nat := length (hand p) + length (won_cards p).

Definition refill_hand (p : Player) (g : Rng) : Player * Rng :=
  let '(won, g') := shuffle (won_cards p) g in
  (mkPlayer (name p) (deque won) [], g').

Definition isEmptyHand (p : Player) : bool := length (hand p) =? 0.

(** [playCard]; the card is [None] when [popleft] raises on an empty hand. *)
Definition playCard (p : Player) (g : Rng) : option Card * Player * Rng :=
  if Player_score p =? 0 then (Some Card_default, p, g)
  else
    let '(p1, g1) := if isEmptyHand p then refill_hand p g else (p, g) in
    match hand p1 with
    | [] => (None, p1, g1)
    | c :: h => (Some c, mkPlayer (name p1) h (won_cards p1), g1)
    end.

(** ** Dictionaries

    [latestResults] and the rows of the score table are Python dicts:
    insertion ordered, a later value for a key that is present replaces the
    earlier one in place. *)

Definition dict := list (string * Z).

Fixpoint dict_set (k : string) (v : Z) (d : dict) : dict :=
  match d with
  | [] => [(k, v)]
  | (k', v') :: d' =>
      if String.eqb k k' then (k', v) :: d' else (k', v') :: dict_set k v d'
  end.

Fixpoint dict_get (k : string) (d : dict) : option Z :=
  match d with
  | [] => None
  | (k', v') :: d' => if String.eqb k k' then Some v' else dict_get k d'
  end.

(** [a | b] *)
Definition dict_union (a b : dict) : dict :=
  foldl (fun d kv => dict_set kv.1 kv.2 d) a b.

(** [{k: v for ...}] over a list of pairs. *)
Definition dict_of (kvs : list (string * Z)) : dict := dict_union [] kvs.

(** ** cardsWar *)

Record cardsWar := mkGame {
  players : list Player;
  round : Z;
  scoreSchema : dict;      (* column name, width of its integer type *)
  score : list dict;       (* the rows of the data frame, oldest first *)
  latestResults : dict
}.

Record World := mkWorld { self : cardsWar; random : Rng }.

Inductive exn := AssertionError | IndexError | ZeroDivisionError | TypeError.

Inductive outcome (A : Type) :=
  | Return (a : A) (w : World)
  | Raise (e : exn) (w : World)
  | OutOfFuel.
Arguments Return {A} a w.
Arguments Raise {A} e w.
Arguments OutOfFuel {A}.

Definition M (A : Type) : Type := World -> outcome A.

Definition bind {A B} (m : M A) (k : A -> M B) : M B :=
  fun w => match m w with
           | Return a w' => k a w'
           | Raise e w' => Raise e w'
           | OutOfFuel => OutOfFuel
           end.

Notation "'let*' x ':=' m 'in' k" := (bind m (fun x => k))
  (at level 10, x name, m at level 100, k at level 200).

Definition Int16 : Z := 16.

(** [cardsWar.__init__]: the assertion comes first, so a refused player
    count builds nothing. *)
Definition init (playersCount : Z) : exn + cardsWar :=
  if (2 <=? playersCount)%Z && (56 `mod` playersCount =? 0)%Z then
    let ps := (fun i => Player_init ("Player " +:+ pretty (i + 1)))
                <$> seq 0 (Z.to_nat playersCount) in
    inr (mkGame ps 0
           (dict_union
              (dict_union [("Round", Int16)] (dict_of ((fun p => (name p, Int16)) <$> ps)))
              [("Total", Int16)])
           [] [])
  else inl AssertionError.

Definition colors : list string := ["BC"; "BS"; "RD"; "RH"].

Definition deck52 : list Card :=
  flat_map (fun num => map (fun c => mkCard (Z.of_nat num + 1) c) colors) (seq 0 13).

Definition CreateShuffleDeck (g : Rng) : list Card * Rng := shuffle deck52 g.

(** [l[a:b]] for [0 <= a <= b]. *)
Definition slice (l : list Card) (a b : nat) : list Card := take (b - a) (drop a l).

Definition set_players (ps : list Player) (c : cardsWar) : cardsWar :=
  mkGame ps (round c) (scoreSchema c) (score c) (latestResults c).

Definition distributeCards : M unit := fun w =>
  let '(deck, g') := CreateShuffleDeck (random w) in
  let w' := mkWorld (self w) g' in
  match length (players (self w)) with
  | 0 => Raise ZeroDivisionError w'
  | S _ =>
      let cardsPerPlayer := length deck / length (players (self w)) in
      let ps := imap (fun i p =>
                  mkPlayer (name p)
                    (deque_extend (hand p)
                       (slice deck (i * cardsPerPlayer) ((i + 1) * cardsPerPlayer)))
                    (won_cards p))
                  (players (self w)) in
      Return tt (mkWorld (set_players ps (self w)) g')
  end.

(** A list of players handed to a method is a list of references to the
    objects in [self.players]: positions in that list.  A position outside
    the list does not arise in the program; the lookup is made total by a
    player without cards, and the update does nothing there. *)
Definition player_at (w : World) (i : nat) : Player :=
  default (mkPlayer "" [] []) (players (self w) !! i).

Definition playCard_at (i : nat) : M Card := fun w =>
  let '(oc, p', g') := playCard (player_at w i) (random w) in
  let w' := mkWorld (set_players (<[i := p']> (players (self w))) (self w)) g' in
  match oc with
  | Some c => Return c w'
  | None => Raise IndexError w'
  end.

(** [[player.playCard() for player in players]] *)
Fixpoint get_played_cards (ps : list nat) : M (list Card) :=
  match ps with
  | [] => Return []
  | i :: rest =>
      let* c := playCard_at i in
      let* cs := get_played_cards rest in
      Return (c :: cs)
  end.

(** The loop of [find_winning_players] from index [i] on; [None] is the
    [IndexError] of [players[i]]. *)
Fixpoint find_winning_from (ps : list nat) (i : nat) (playedCards : list Card)
    (winingPlayers : list nat) (highestCard : Card) : option (list nat) :=
  match playedCards with
  | [] => Some winingPlayers
  | card :: rest =>
      if (number card =? 0)%Z then
        find_winning_from ps (S i) rest winingPlayers highestCard
      else if Card_gt card highestCard then
        match ps !! i with
        | Some p => find_winning_from ps (S i) rest [p] card
        | None => None
        end
      else if Card_eq card highestCard then
        match ps !! i with
        | Some p => find_winning_from ps (S i) rest (winingPlayers ++ [p]) highestCard
        | None => None
        end
      else find_winning_from ps (S i) rest winingPlayers highestCard
  end.

Definition find_winning_players (ps : list nat) (playedCards : list Card)
    : option (list nat) :=
  find_winning_from ps 0 playedCards [] Card_default.

Definition total_score (ps : list Player) : nat := sum_list (Player_score <$> ps).

(** The values an [Int16] column of the scoreboard can hold. *)
Definition fits_Int16 (v : Z) : bool := (-32768 <=? v)%Z && (v <=? 32767)%Z.

(** The dict built at lines 190-194: the round, every player's score under
    the player's name, and the total. *)
Definition scoreboard_row (c : cardsWar) : dict :=
  dict_union
    (dict_union [("Round", round c)]
       (dict_of ((fun p => (name p, Z.of_nat (Player_score p))) <$> players c)))
    [("Total", Z.of_nat (total_score (players c)))].

(** Line 190 replaces [latestResults]; line 195 then builds a frame of the
    row with the schema of the table, whose columns the constructor makes
    all [Int16] (lines 115-119), and extends the table with it.  Building
    the frame raises [TypeError] when a value of the row is outside the
    [Int16] range: [latestResults] is then already replaced and no row is
    appended. *)
Definition update_scoreboard : M unit := fun w =>
  let c := self w in
  let row := scoreboard_row c in
  if forallb (fun kv => fits_Int16 kv.2) row then
    Return tt
      (mkWorld (mkGame (players c) (round c) (scoreSchema c) (score c ++ [row]) row)
         (random w))
  else
    Raise TypeError
      (mkWorld (mkGame (players c) (round c) (scoreSchema c) (score c) row)
         (random w)).

Definition real (c : Card) : bool := negb (number c =? 0)%Z.

Definition award_cards (winner : nat) (playedCards field : list Card) : M unit := fun w =>
  let p := player_at w winner in
  let p' := mkPlayer (name p) (hand p)
              ((won_cards p ++ filter (fun c => real c) playedCards)
                 ++ filter (fun c => real c) field) in
  Return tt (mkWorld (set_players (<[winner := p']> (players (self w))) (self w)) (random w)).

(** [self.round += 1] *)
Definition next_round (w : World) : World :=
  let c := self w in
  mkWorld (mkGame (players c) (round c + 1) (scoreSchema c) (score c) (latestResults c))
    (random w).

Definition incr_round : M unit := fun w => Return tt (next_round w).

(** [breakDraw], with the call back into [playRound] as a parameter. *)
Definition breakDraw (playRound : list nat -> list Card -> M unit)
    (field playedCards : list Card) (winingPlayers : list nat) : M unit :=
  let* extra := get_played_cards winingPlayers in
  playRound winingPlayers (field ++ (playedCards ++ extra)).

Fixpoint playRound (fuel : nat) (ps : list nat) (field : list Card) : M unit :=
  match fuel with
  | 0 => fun _ => OutOfFuel
  | S fuel' =>
      let* _ := incr_round in
      let* playedCards := get_played_cards ps in
      match find_winning_players ps playedCards with
      | None => Raise IndexError
      | Some winingPlayers =>
          if 1 <? length winingPlayers then
            breakDraw (playRound fuel') field playedCards winingPlayers
          else
            match winingPlayers with
            | [] => Raise IndexError
            | winner :: _ =>
                let* _ := award_cards winner playedCards field in
                update_scoreboard
            end
      end
  end.

(** [isWinner], without the line it prints. *)
Fixpoint isWinner_from (ps : list Player) : bool :=
  match ps with
  | [] => false
  | p :: rest => if 52 <=? Player_score p then true else isWinner_from rest
  end.

Definition isWinner (w : World) : bool := isWinner_from (players (self w)).

Definition all_players (w : World) : list nat := seq 0 (length (players (self w))).

(** The [while] loop of [playGame]. *)
Fixpoint game_loop (fuel : nat) : M unit := fun w =>
  match fuel with
  | 0 => OutOfFuel
  | S fuel' =>
      if isWinner w then Return tt w
      else (let* _ := playRound fuel' (all_players w) [] in game_loop fuel') w
  end.

(** [playGame] up to the end of its loop.  The clock read at line 247 and
    the [write_csv] of line 253, which writes the table to a file and can
    fail with the file system, are not part of the model: a [Return] of
    this function is the state in which [write_csv] is called. *)
Definition playGame (fuel : nat) : M unit :=
  let* _ := distributeCards in
  let* _ := update_scoreboard in
  game_loop fuel.

(** ** Auxiliary definitions for the statements *)

(** The loop of [find_winning_players] over the players paired with the
    cards they played; it agrees with [find_winning_from] whenever every
    card has a player, see [find_winning_from_pairs]. *)
Fixpoint winning_pairs (pcs : list (nat * Card)) (winingPlayers : list nat)
    (highestCard : Card) : list nat :=
  match pcs with
  | [] => winingPlayers
  | (p, card) :: rest =>
      if (number card =? 0)%Z then winning_pairs rest winingPlayers highestCard
      else if Card_gt card highestCard then winning_pairs rest [p] card
      else if Card_eq card highestCard then
        winning_pairs rest (winingPlayers ++ [p]) highestCard
      else winning_pairs rest winingPlayers highestCard
  end.

(** The players and cards of a round without the rank-0 plays. *)
Definition drop_sentinels (ps : list nat) (cs : list Card) : list (nat * Card) :=
  filter (fun pc => real pc.2) (zip ps cs).

(** The highest rank among the cards played, rank-0 cards counting for
    nothing, and the players whose card has that rank. *)
Definition highest_rank (cs : list Card) : Z :=
  foldl (fun m c => Z.max m (number c)) 0%Z cs.

Definition tied_players (ps : list nat) (cs : list Card) : list nat :=
  (filter (fun pc => number pc.2 = highest_rank cs ∧ number pc.2 ≠ 0%Z) (zip ps cs)).*1.

(** The cards a player holds, and the worlds in which every held card has
    a positive rank, as the cards of the deck have. *)
Definition cards_of (p : Player) : list Card := hand p ++ won_cards p.

Definition held_real (w : World) : Prop :=
  Forall (fun p => Forall (fun c => (0 < number c)%Z) (cards_of p)) (players (self w)).

(** What calls that only play cards leave alone: the round, the score
    table and the names; no player gains a card, and a player without
    cards is not touched. *)
Definition frame (w w' : World) : Prop :=
  round (self w') = round (self w)
  ∧ score (self w') = score (self w)
  ∧ scoreSchema (self w') = scoreSchema (self w)
  ∧ latestResults (self w') = latestResults (self w)
  ∧ name <$> players (self w') = name <$> players (self w)
  ∧ total_score (players (self w')) ≤ total_score (players (self w))
  ∧ (∀ i, Player_score (player_at w' i) ≤ Player_score (player_at w i))
  ∧ (∀ i, Player_score (player_at w i) = 0 → player_at w' i = player_at w i)
  ∧ (held_real w → held_real w').

(** A game object in a world whose generator reads the tape [t]. *)
Definition new_game (playersCount : Z) (t : nat -> nat) : exn + World :=
  match init playersCount with
  | inl e => inl e
  | inr c => inr (mkWorld c (mkRng t 0))
  end.

Definition tape_of (l : list nat) : nat -> nat := fun k => nth k l 0.

(** A tape whose shuffle deals the two black cards of every rank to the
    first of two players and the two red ones to the second. *)
Definition tie_tape : nat -> nat :=
  tape_of [51; 50; 47; 46; 43; 42; 39; 38; 35; 34; 31; 30; 27; 26; 23; 22; 19;
           18; 15; 14; 11; 10; 7; 6; 3; 2; 19; 18; 3; 2; 11; 10; 3; 2; 15; 14;
           7; 6; 3; 2; 11; 10; 7; 6; 3; 2; 3; 2; 3; 2; 1].

(** A tape whose shuffle deals the upper half of the deck (two sevens and
    all of 8 to 13) to the first of two players. *)
Definition high_tape : nat -> nat :=
  fun k => if k <? 26 then 25 - k else 51 - k.

(** The player [p] after [award_cards] gave it the cards [cs] and [field]. *)
Definition awarded (p : Player) (cs field : list Card) : Player :=
  mkPlayer (name p) (hand p)
    ((won_cards p ++ filter (fun c => real c) cs) ++ filter (fun c => real c) field).

(** Two players with three cards each, tied on their first card. *)
Definition war_world : World :=
  mkWorld
    (mkGame
       [mkPlayer "Player 1" [mkCard 7 "BC"; mkCard 2 "BS"; mkCard 9 "RD"] [];
        mkPlayer "Player 2" [mkCard 7 "RH"; mkCard 5 "BC"; mkCard 3 "BS"] []]
       0 [] [] [])
    (mkRng (fun _ => 0) 0).

(** The same two players with the round counter at the largest value of
    an [Int16] column. *)
Definition late_world : World :=
  mkWorld
    (mkGame (players (self war_world)) 32767 [] [] [])
    (mkRng (fun _ => 0) 0).

(** The columns of the players, and the worlds in which they are distinct
    and none of them is the column of the round or of the total. *)
Definition names (w : World) : list string := name <$> players (self w).

Definition names_ok (w : World) : Prop :=
  NoDup (names w) ∧ ("Round" ∉ names w) ∧ ("Total" ∉ names w).

(** The row has a [Total], a value for each of the columns [ns], and the
    total is the sum of these values. *)
Definition row_total_ok (ns : list string) (row : dict) : bool :=
  match dict_get "Total" row, mapM (fun n => dict_get n row) ns with
  | Some t, Some vs => (t =? foldr Z.add 0 vs)%Z
  | _, _ => false
  end.

(** The world in which a call ends, by return or by exception. *)
Definition final_world {A} (o : outcome A) : option World :=
  match o with
  | Return _ w | Raise _ w => Some w
  | OutOfFuel => None
  end.

(** The table of [w'] is the table of [w] followed by rows whose total is
    right; the columns are the same. *)
Definition table_extends (w w' : World) : Prop :=
  names w' = names w
  ∧ ∃ rows, score (self w') = score (self w) ++ rows
            ∧ Forall (fun r => row_total_ok (names w) r = true) rows.

(** The two worlds in which [update_scoreboard] can end: the row appended,
    or only [latestResults] replaced. *)
Definition row_appended (w : World) : World :=
  mkWorld
    (mkGame (players (self w)) (round (self w)) (scoreSchema (self w))
       (score (self w) ++ [scoreboard_row (self w)]) (scoreboard_row (self w)))
    (random w).

Definition row_refused (w : World) : World :=
  mkWorld
    (mkGame (players (self w)) (round (self w)) (scoreSchema (self w))
       (score (self w)) (scoreboard_row (self w)))
    (random w).

(** The worlds whose row fits the [Int16] columns: the round is in range
    and so is the total, hence every score. *)
Definition row_fits (w : World) : Prop :=
  (-32768 ≤ round (self w) ≤ 32767)%Z
  ∧ (Z.of_nat (total_score (players (self w))) ≤ 32767)%Z.

(** ** What the specification says of [refill_hand], as one proposition *)

Definition refill_hand_claim (p : Player) (g : Rng) : Prop :=
  let p' := (refill_hand p g).1 in
  won_cards p' = []
  ∧ length (hand p') = length (won_cards p)
  ∧ hand p' ++ won_cards p' ≡ₚ hand p ++ won_cards p.

(** ** What the specification says of a war, as two propositions *)





(** ** Auxiliary definitions for the properties of the whole game *)

(** All the cards the players hold, player by player. *)
Definition all_cards (w : World) : list Card :=
  concat (cards_of <$> players (self w)).

(** No won pile holds more cards than a hand can take. *)
Definition piles_fit (w : World) : Prop :=
  Forall (fun p => length (won_cards p) ≤ maxlen) (players (self w)).

(** The columns [Round] and [Total] of a table. *)
Definition round_column (rows : list dict) : list (option Z) := dict_get "Round" <$> rows.
Definition total_column (rows : list dict) : list (option Z) := dict_get "Total" <$> rows.

(** The game while all 52 cards are with the players. *)
Definition in_play (w : World) : Prop :=
  held_real w
  ∧ all_cards w ≡ₚ deck52
  ∧ names_ok w
  ∧ (scoreSchema (self w)).*1 = "Round" :: names w ++ ["Total"].

(** The table of such a game: every row has the columns of the schema and
    the total 52, and the rounds increase and are not beyond the counter. *)
Definition table_inv (w : World) : Prop :=
  Forall (fun r => dict_get "Total" r = Some 52%Z ∧ r.*1 = (scoreSchema (self w)).*1)
    (score (self w))
  ∧ ∃ ks, round_column (score (self w)) = Some <$> ks
          ∧ StronglySorted Z.lt ks
          ∧ Forall (fun k => (k ≤ round (self w))%Z) ks.

(** Structural equality of cards (rank and suit) is decidable. *)
Global Instance Card_eq_dec : EqDecision Card.
Proof. solve_decision. Defined.
(** * Properties *)

(** ** The shuffle is a permutation *)

Lemma insert_head_perm (x : list Card) j a b :
  x !! j = Some b → b :: <[j := a]> x ≡ₚ a :: x.
Proof.
  revert j. induction x as [|c x IH]; intros [|j] Hj; simplify_eq/=.
  - apply perm_swap.
  - rewrite (perm_swap c b), (IH _ Hj). apply perm_swap.
Qed.

Lemma swap_perm (x : list Card) i j : swap x i j ≡ₚ x.
Proof.
  unfold swap.
  destruct (x !! i) as [a|] eqn:Hi; [|done].
  destruct (x !! j) as [b|] eqn:Hj; [|done].
  revert i j Hi Hj. induction x as [|c x IH]; intros [|i] [|j] Hi Hj; simplify_eq/=.
  - done.
  - by apply insert_head_perm.
  - by apply insert_head_perm.
  - f_equiv. by apply IH.
Qed.

Lemma shuffle_from_perm i (x : list Card) g : (shuffle_from i x g).1 ≡ₚ x.
Proof.
  revert x g. induction i as [|i IH]; intros x g; [done|].
  cbn [shuffle_from]. destruct (randbelow (S (S i)) g) as [j g'].
  rewrite IH. apply swap_perm.
Qed.

Lemma shuffle_perm (x : list Card) g : (shuffle x g).1 ≡ₚ x.
Proof. apply shuffle_from_perm. Qed.

Lemma shuffle_length (x : list Card) g : length (shuffle x g).1 = length x.
Proof. by rewrite shuffle_perm. Qed.


(** ** Player *)

Lemma deque_small (l : list Card) : length l ≤ maxlen → deque l = l.
Proof. intros H. unfold deque. by replace (length l - maxlen) with 0 by lia. Qed.

Lemma deque_length (l : list Card) : length (deque l) = length l `min` maxlen.
Proof. unfold deque. rewrite length_drop. lia. Qed.

Lemma refill_hand_fst p g :
  (refill_hand p g).1 = mkPlayer (name p) (deque (shuffle (won_cards p) g).1) [].
Proof. unfold refill_hand. by destruct (shuffle (won_cards p) g). Qed.

Lemma refill_hand_snd p g : (refill_hand p g).2 = (shuffle (won_cards p) g).2.
Proof. unfold refill_hand. by destruct (shuffle (won_cards p) g). Qed.

(** C2 (as amended).  When the hand is empty and the won pile holds at most
    56 cards, [refill_hand] leaves the won pile empty, gives a hand as long
    as the won pile was, and keeps the cards of the player: hand and won
    pile together are a permutation of what they were. *)
Theorem refill_hand_spec p g :
  hand p = [] → length (won_cards p) ≤ maxlen → refill_hand_claim p g.
Proof.
  intros Hh Hlen. unfold refill_hand_claim. rewrite refill_hand_fst. simpl.
  assert (deque (shuffle (won_cards p) g).1 = (shuffle (won_cards p) g).1) as ->.
  { apply deque_small. by rewrite shuffle_length. }
  rewrite Hh, app_nil_r. simpl.
  split_and!; [done|apply shuffle_length|apply shuffle_perm].
Qed.

Lemma refill_hand_spec_witness :
  refill_hand_claim (mkPlayer "Player 1" [] [mkCard 3 "BC"; mkCard 9 "RH"])
    (mkRng (fun _ => 0) 0).
Proof. apply refill_hand_spec; [reflexivity|vm_compute; lia]. Defined.

(** C2 (as stated) fails: a card left in the hand is overwritten, and of a
    won pile of 57 cards only the last 56 make the hand. *)
Lemma refill_hand_claim_fails :
  ¬ refill_hand_claim (mkPlayer "Player 1" [mkCard 5 "BC"] []) (mkRng (fun _ => 0) 0)
  ∧ ¬ refill_hand_claim (mkPlayer "Player 1" [] (replicate 57 (mkCard 5 "BC")))
        (mkRng (fun k => 56 - k) 0).
Proof.
  split.
  - intros (_ & _ & H). apply Permutation_length in H. vm_compute in H. discriminate.
  - intros (_ & H & _). vm_compute in H. discriminate.
Qed.

Lemma playCard_zero p g :
  Player_score p = 0 → playCard p g = (Some Card_default, p, g).
Proof. intros H. unfold playCard. by rewrite H. Qed.

(** A hand that is not empty gives its first card. *)
Lemma playCard_front p g c h :
  hand p = c :: h →
  playCard p g = (Some c, mkPlayer (name p) h (won_cards p), g).
Proof.
  intros Hh. unfold playCard, isEmptyHand, Player_score. rewrite Hh. simpl. by rewrite Hh.
Qed.

(** An empty hand is refilled first; the refilled hand is not empty. *)
Lemma playCard_refill p g :
  Player_score p ≠ 0 → hand p = [] →
  ∃ c h, hand (refill_hand p g).1 = c :: h
         ∧ playCard p g = (Some c, mkPlayer (name p) h [], (refill_hand p g).2).
Proof.
  intros Hs Hh. unfold playCard, isEmptyHand.
  apply Nat.eqb_neq in Hs. rewrite Hs, Hh. simpl.
  destruct (refill_hand p g) as [p1 g1] eqn:Hr.
  pose proof (refill_hand_fst p g) as H1. rewrite Hr in H1. simpl in H1. subst p1.
  apply Nat.eqb_neq in Hs. unfold Player_score in Hs. rewrite Hh in Hs. simpl in *.
  destruct (deque (shuffle (won_cards p) g).1) as [|c h] eqn:Hd.
  - apply (f_equal length) in Hd. rewrite deque_length, shuffle_length in Hd.
    unfold maxlen in Hd. simpl in Hd. lia.
  - by exists c, h.
Qed.

(** C4.  [playCard] on a player without cards gives the rank-0 card and
    changes nothing; otherwise it takes the card at the front of the hand,
    after a refill from the won pile when the hand is empty; [popleft]
    never raises. *)
Theorem playCard_spec p g :
  number Card_default = 0%Z
  ∧ (Player_score p = 0 → playCard p g = (Some Card_default, p, g))
  ∧ (∀ c h, hand p = c :: h →
       playCard p g = (Some c, mkPlayer (name p) h (won_cards p), g))
  ∧ (Player_score p ≠ 0 → hand p = [] →
       ∃ c h, hand (refill_hand p g).1 = c :: h
              ∧ playCard p g = (Some c, mkPlayer (name p) h [], (refill_hand p g).2)).
Proof.
  split; [reflexivity|]. split; [apply playCard_zero|].
  split; [intros c h; apply playCard_front|apply playCard_refill].
Qed.

Lemma playCard_spec_witness :
  playCard (mkPlayer "Player 1" [] [mkCard 3 "BC"]) (mkRng (fun _ => 0) 0)
  = (Some (mkCard 3 "BC"), mkPlayer "Player 1" [] [], mkRng (fun _ => 0) 0)
  ∧ playCard (mkPlayer "Player 1" [] []) (mkRng (fun _ => 0) 0)
    = (Some Card_default, mkPlayer "Player 1" [] [], mkRng (fun _ => 0) 0).
Proof.
  split.
  - destruct (proj2 (proj2 (proj2 (playCard_spec
      (mkPlayer "Player 1" [] [mkCard 3 "BC"]) (mkRng (fun _ => 0) 0)))))
      as (c & h & H1 & H2); [vm_compute; lia|reflexivity|].
    vm_compute in H1. injection H1 as <- <-. exact H2.
  - apply (proj1 (proj2 (playCard_spec (mkPlayer "Player 1" [] []) (mkRng (fun _ => 0) 0)))).
    reflexivity.
Defined.

(** ** Construction *)

(** The assertion of the constructor. *)
Lemma init_assertion (playersCount : Z) :
  (2 <=? playersCount)%Z && (56 `mod` playersCount =? 0)%Z = true
  ↔ (2 ≤ playersCount ∧ (playersCount | 56))%Z.
Proof.
  rewrite andb_true_iff, Z.leb_le, Z.eqb_eq. split.
  - intros [H2 Hm]. split; [done|]. apply Z.mod_divide; [lia|done].
  - intros [H2 Hd]. split; [done|]. apply Z.mod_divide; [lia|done].
Qed.

Lemma init_accepts (playersCount : Z) :
  (∃ c, init playersCount = inr c) ↔ (2 ≤ playersCount ∧ (playersCount | 56))%Z.
Proof.
  rewrite <- init_assertion. unfold init.
  destruct (_ && _).
  - split; [done|]. intros _. eauto.
  - split; [by intros [c ?]|done].
Qed.

Lemma init_refuses (playersCount : Z) :
  init playersCount = inl AssertionError
  ↔ ¬ (2 ≤ playersCount ∧ (playersCount | 56))%Z.
Proof.
  rewrite <- init_assertion. unfold init.
  destruct (_ && _).
  - split; [done|]. intros H. by destruct H.
  - split; [|done]. intros _ H. discriminate H.
Qed.

(** The game that the constructor builds. *)
Lemma init_fresh (playersCount : Z) c :
  init playersCount = inr c →
  length (players c) = Z.to_nat playersCount
  ∧ Forall (λ p, hand p = [] ∧ won_cards p = []) (players c)
  ∧ round c = 0%Z ∧ score c = [] ∧ latestResults c = [].
Proof.
  unfold init. destruct (_ && _); [|done]. intros [= <-]. simpl.
  rewrite length_fmap, length_seq. split_and!; try done.
  apply Forall_forall. intros p Hp. apply list_elem_of_fmap in Hp as (i & -> & _). done.
Qed.

(** C5.  The constructor succeeds exactly for a player count of at least 2
    that divides 56, and otherwise raises [AssertionError] with no game
    object built (so for 3 players); a game that is built has one player
    per count, each without cards, round 0 and an empty score table. *)
Theorem init_spec (playersCount : Z) :
  ((∃ c, init playersCount = inr c) ↔ (2 ≤ playersCount ∧ (playersCount | 56))%Z)
  ∧ (init playersCount = inl AssertionError
     ↔ ¬ (2 ≤ playersCount ∧ (playersCount | 56))%Z)
  ∧ init 3 = inl AssertionError
  ∧ (∀ c, init playersCount = inr c →
       length (players c) = Z.to_nat playersCount
       ∧ Forall (λ p, hand p = [] ∧ won_cards p = []) (players c)
       ∧ round c = 0%Z ∧ score c = [] ∧ latestResults c = []).
Proof.
  split; [apply init_accepts|]. split; [apply init_refuses|].
  split; [reflexivity|apply init_fresh].
Qed.

Lemma init_spec_witness :
  length (players (mkGame [Player_init "Player 1"; Player_init "Player 2"] 0
                     [("Round", Int16); ("Player 1", Int16); ("Player 2", Int16);
                      ("Total", Int16)] [] [])) = 2
  ∧ init 2 = inr (mkGame [Player_init "Player 1"; Player_init "Player 2"] 0
                    [("Round", Int16); ("Player 1", Int16); ("Player 2", Int16);
                     ("Total", Int16)] [] []).
Proof.
  split; [|reflexivity].
  apply (proj2 (proj2 (proj2 (init_spec 2)))). reflexivity.
Defined.

(** ** The winners of a round *)

Lemma find_winning_from_pairs cs : ∀ ps i wp hc,
  length cs ≤ length ps - i →
  find_winning_from ps i cs wp hc = Some (winning_pairs (zip (drop i ps) cs) wp hc).
Proof.
  induction cs as [|card cs IH]; intros ps i wp hc Hlen; simpl in *.
  { by destruct (drop i ps). }
  destruct (ps !! i) as [p|] eqn:Hp; [|apply lookup_ge_None in Hp; lia].
  rewrite (drop_S _ _ _ Hp). simpl.
  repeat case_match; apply IH; lia.
Qed.

Lemma find_winning_players_pairs ps cs :
  length cs = length ps →
  find_winning_players ps cs = Some (winning_pairs (zip ps cs) [] Card_default).
Proof.
  intros H. unfold find_winning_players. rewrite find_winning_from_pairs by lia.
  by rewrite drop_0.
Qed.

Lemma winning_pairs_filter pcs : ∀ wp hc,
  winning_pairs (filter (λ pc, real pc.2) pcs) wp hc = winning_pairs pcs wp hc.
Proof.
  induction pcs as [|[p card] pcs IH]; intros wp hc; [done|].
  destruct (number card =? 0)%Z eqn:E.
  - rewrite filter_cons_False by (unfold real; simpl; rewrite E; simpl; tauto).
    simpl. rewrite E. apply IH.
  - rewrite filter_cons_True by (unfold real; simpl; rewrite E; simpl; tauto).
    simpl. rewrite E. repeat case_match; apply IH.
Qed.

(** Every winner played a card of non-zero rank. *)
Lemma winning_pairs_elem pcs : ∀ wp hc p,
  p ∈ winning_pairs pcs wp hc →
  p ∈ wp ∨ ∃ c, (p, c) ∈ pcs ∧ number c ≠ 0%Z.
Proof.
  induction pcs as [|[q card] pcs IH]; intros wp hc p Hin; simpl in *; [by left|].
  destruct (number card =? 0)%Z eqn:E.
  { destruct (IH _ _ _ Hin) as [?|(c & ? & ?)]; [by left|right].
    exists c. split; [by right|done]. }
  apply Z.eqb_neq in E.
  assert (Hstep : ∀ wp' hc', p ∈ winning_pairs pcs wp' hc' → (p ∈ wp' → p ∈ wp ∨ p = q) →
            p ∈ wp ∨ ∃ c, (p, c) ∈ (q, card) :: pcs ∧ number c ≠ 0%Z).
  { intros wp' hc' H Hwp'. destruct (IH _ _ _ H) as [Hp|(c & ? & ?)].
    - destruct (Hwp' Hp) as [?| ->]; [by left|right]. exists card. split; [by left|done].
    - right. exists c. split; [by right|done]. }
  repeat case_match.
  - apply (Hstep _ _ Hin). intros ->%list_elem_of_singleton. by right.
  - apply (Hstep _ _ Hin). intros [?| ->%list_elem_of_singleton]%elem_of_app; auto.
  - apply (Hstep _ _ Hin). auto.
Qed.

(** The winners are players of the round, in the order of the round. *)
Lemma winning_pairs_sublist pcs : ∀ wp hc seen,
  wp `sublist_of` seen → winning_pairs pcs wp hc `sublist_of` seen ++ pcs.*1.
Proof.
  induction pcs as [|[q card] pcs IH]; intros wp hc seen Hwp.
  { simpl. by rewrite app_nil_r. }
  change (seen ++ ((q, card) :: pcs).*1) with (seen ++ [q] ++ pcs.*1).
  rewrite (assoc_L (++)). simpl.
  repeat case_match; apply IH.
  - by apply sublist_inserts_r.
  - apply sublist_inserts_l. done.
  - by apply sublist_app.
  - by apply sublist_inserts_r.
Qed.

(** [find_winning_players] computes the players tied for the highest
    non-zero rank. *)
Lemma highest_rank_from_le cs : ∀ m, (m ≤ foldl (λ m c, Z.max m (number c)) m cs)%Z.
Proof.
  induction cs as [|c cs IH]; intros m; simpl; [lia|].
  specialize (IH (Z.max m (number c))). lia.
Qed.

Lemma winning_pairs_max pcs : ∀ wp hc,
  (0 ≤ number hc)%Z →
  let m := foldl (λ m c, Z.max m (number c)) (number hc) pcs.*2 in
  winning_pairs pcs wp hc
  = (if (m =? number hc)%Z then wp else [])
    ++ (filter (λ pc, number pc.2 = m ∧ number pc.2 ≠ 0%Z) pcs).*1.
Proof.
  induction pcs as [|[p card] pcs IH]; intros wp hc Hhc; simpl.
  { rewrite Z.eqb_refl. by rewrite app_nil_r. }
  pose proof (highest_rank_from_le pcs.*2 (Z.max (number hc) (number card))) as Hle.
  unfold Card_gt, Card_eq.
  destruct (number card =? 0)%Z eqn:E0; [apply Z.eqb_eq in E0|apply Z.eqb_neq in E0].
  { rewrite IH by done. simpl.
    replace (Z.max (number hc) (number card)) with (number hc) by lia.
    by rewrite filter_cons_False by (simpl; lia). }
  destruct (number hc <? number card)%Z eqn:E1; [apply Z.ltb_lt in E1|apply Z.ltb_ge in E1].
  { rewrite IH by lia. simpl.
    replace (Z.max (number hc) (number card)) with (number card) in * by lia.
    set (m := foldl _ _ _) in *.
    replace (m =? number hc)%Z with false by (symmetry; apply Z.eqb_neq; lia).
    destruct (m =? number card)%Z eqn:E2; [apply Z.eqb_eq in E2|apply Z.eqb_neq in E2].
    - by rewrite filter_cons_True by (simpl; lia).
    - by rewrite filter_cons_False by (simpl; lia). }
  destruct (number card =? number hc)%Z eqn:E2; [apply Z.eqb_eq in E2|apply Z.eqb_neq in E2].
  { rewrite IH by lia. simpl.
    replace (Z.max (number hc) (number card)) with (number hc) in * by lia.
    set (m := foldl _ _ _) in *.
    destruct (m =? number hc)%Z eqn:E3; [apply Z.eqb_eq in E3|apply Z.eqb_neq in E3].
    - rewrite filter_cons_True by (simpl; lia). simpl. by rewrite <- app_assoc.
    - by rewrite filter_cons_False by (simpl; lia). }
  rewrite IH by lia. simpl.
  replace (Z.max (number hc) (number card)) with (number hc) in * by lia.
  set (m := foldl _ _ _) in *.
  by rewrite filter_cons_False by (simpl; lia).
Qed.

Lemma find_winning_players_tied ps cs :
  length cs = length ps → find_winning_players ps cs = Some (tied_players ps cs).
Proof.
  intros Hlen. rewrite find_winning_players_pairs by done. f_equal.
  rewrite winning_pairs_max by done. simpl.
  destruct (_ =? 0)%Z; simpl; unfold tied_players, highest_rank;
    by rewrite snd_zip by lia.
Qed.

Lemma tied_players_sublist ps cs : tied_players ps cs `sublist_of` ps.
Proof.
  unfold tied_players. trans (zip ps cs).*1.
  - apply fmap_sublist, sublist_filter.
  - clear. revert cs. induction ps as [|p ps IH]; intros [|c cs]; simpl;
      [done|done|apply sublist_nil_l|by apply sublist_skip].
Qed.

(** ** Sequencing *)

Lemma bind_Return {A B} (m : M A) (k : A → M B) w a w1 :
  m w = Return a w1 → bind m k w = k a w1.
Proof. unfold bind. by intros ->. Qed.

Lemma bind_Raise {A B} (m : M A) (k : A → M B) w e w1 :
  m w = Raise e w1 → bind m k w = Raise e w1.
Proof. unfold bind. by intros ->. Qed.

Lemma bind_OutOfFuel {A B} (m : M A) (k : A → M B) w :
  m w = OutOfFuel → bind m k w = OutOfFuel.
Proof. unfold bind. by intros ->. Qed.

Lemma playGame_eq fuel :
  playGame fuel
  = (let* _ := distributeCards in let* _ := update_scoreboard in game_loop fuel).
Proof. reflexivity. Qed.

(** ** Playing cards in a world *)

Lemma total_score_insert (l : list Player) i p q :
  l !! i = Some q →
  total_score (<[i := p]> l) + Player_score q = total_score l + Player_score p.
Proof.
  unfold total_score. revert i. induction l as [|a l IH]; intros [|i] Hi; simplify_eq/=.
  - lia.
  - specialize (IH _ Hi). lia.
Qed.

Lemma player_at_lookup w i q : players (self w) !! i = Some q → player_at w i = q.
Proof. unfold player_at. by intros ->. Qed.

Lemma player_at_None w i : players (self w) !! i = None → Player_score (player_at w i) = 0.
Proof. unfold player_at. by intros ->. Qed.

Lemma player_at_set w i j p g :
  player_at (mkWorld (set_players (<[i := p]> (players (self w))) (self w)) g) j
  = if decide (i = j ∧ i < length (players (self w))) then p else player_at w j.
Proof.
  unfold player_at. simpl. case_decide as H.
  - destruct H as [<- H]. by rewrite list_lookup_insert_eq.
  - destruct (decide (i = j)) as [<-|Hne].
    + by rewrite list_insert_ge by lia.
    + by rewrite list_lookup_insert_ne.
Qed.

Lemma set_players_id w p i :
  (i < length (players (self w)) → players (self w) !! i = Some p) →
  mkWorld (set_players (<[i := p]> (players (self w))) (self w)) (random w) = w.
Proof. intros H. rewrite list_insert_id' by done. by destruct w as [[] ?]. Qed.

Lemma playCard_nonzero p g :
  Player_score p ≠ 0 →
  ∃ c p' g', playCard p g = (Some c, p', g')
    ∧ name p' = name p
    ∧ Player_score p' < Player_score p
    ∧ c ∈ cards_of p
    ∧ cards_of p' ⊆ cards_of p.
Proof.
  intros Hs. destruct (hand p) as [|c h] eqn:Hh.
  - destruct (playCard_refill p g Hs Hh) as (c & h & Hr & ->).
    rewrite refill_hand_fst in Hr. simpl in Hr.
    assert (Hsub : c :: h ⊆ won_cards p).
    { rewrite <- Hr. unfold deque. etrans; [apply sublist_subseteq, sublist_drop|].
      by rewrite shuffle_perm. }
    assert (Hlen : length (c :: h) ≤ length (won_cards p)).
    { rewrite <- Hr, deque_length, shuffle_length. lia. }
    exists c, (mkPlayer (name p) h []), (refill_hand p g).2.
    unfold Player_score, cards_of. rewrite Hh. simpl in *.
    split_and!; [done|done|lia|apply Hsub; by left|].
    rewrite app_nil_r. intros x Hx. apply Hsub. by right.
  - exists c, (mkPlayer (name p) h (won_cards p)), g.
    rewrite (playCard_front p g c h Hh).
    unfold Player_score, cards_of. rewrite Hh. simpl.
    split_and!; [done|done|lia|by left|]. intros x Hx. by right.
Qed.

Lemma frame_refl w : frame w w.
Proof. unfold frame. split_and!; done. Qed.

Lemma frame_trans w1 w2 w3 : frame w1 w2 → frame w2 w3 → frame w1 w3.
Proof.
  unfold frame. intros (?&?&?&?&?&?&Hle1&Hz1&?) (?&?&?&?&?&?&Hle2&Hz2&?).
  split_and!; try congruence; try lia; try tauto.
  - intros i. specialize (Hle1 i). specialize (Hle2 i). lia.
  - intros i Hi. rewrite Hz2; [by apply Hz1|]. by rewrite Hz1.
Qed.

Lemma playCard_at_zero i w :
  Player_score (player_at w i) = 0 → playCard_at i w = Return Card_default w.
Proof.
  intros Hs. unfold playCard_at. rewrite playCard_zero by done.
  rewrite set_players_id; [done|]. intros Hi.
  destruct (lookup_lt_is_Some_2 _ _ Hi) as [q Hq]. by rewrite (player_at_lookup _ _ _ Hq).
Qed.

Lemma playCard_at_nonzero i w :
  Player_score (player_at w i) ≠ 0 →
  ∃ c w', playCard_at i w = Return c w'
    ∧ frame w w'
    ∧ total_score (players (self w')) < total_score (players (self w))
    ∧ c ∈ cards_of (player_at w i)
    ∧ players (self w) !! i = Some (player_at w i).
Proof.
  intros Hs.
  destruct (players (self w) !! i) as [q|] eqn:Hq;
    [|by rewrite player_at_None in Hs].
  pose proof (player_at_lookup _ _ _ Hq) as Hat.
  destruct (playCard_nonzero _ (random w) Hs) as (c & p' & g' & Hp & Hn & Hlt & Hc & Hsub).
  unfold playCard_at. rewrite Hp. eexists _, _. split; [done|].
  pose proof (total_score_insert _ _ p' _ Hq) as Htot. rewrite Hat in *.
  split_and!; [|simpl; lia|done|done].
  unfold frame. simpl. split_and!; try done.
  - rewrite list_fmap_insert, Hn. apply list_insert_id. by rewrite list_lookup_fmap, Hq.
  - lia.
  - intros j. rewrite player_at_set. case_decide as Hd; [|done].
    destruct Hd as [<- _]. rewrite Hat. lia.
  - intros j Hj. rewrite player_at_set. case_decide as Hd; [|done].
    destruct Hd as [<- _]. by rewrite Hat in Hj.
  - unfold held_real. simpl. intros Hr. apply Forall_insert; [done|].
    rewrite Forall_forall in Hr. specialize (Hr _ (list_elem_of_lookup_2 _ _ _ Hq)).
    rewrite Forall_forall in Hr |- *. intros x Hx. by apply Hr, Hsub.
Qed.

(** The cards of a round: every player yields a card, no exception is
    raised, each card of non-zero rank leaves its player, and where every
    held card has a positive rank a rank-0 card comes from a player who has
    no card at all. *)
Lemma get_played_cards_spec ps : ∀ w,
  ∃ cs w', get_played_cards ps w = Return cs w'
    ∧ frame w w'
    ∧ length cs = length ps
    ∧ total_score (players (self w')) + length (filter (λ c, real c) cs)
      ≤ total_score (players (self w))
    ∧ Forall2 (λ i c, Player_score (player_at w i) = 0 → c = Card_default) ps cs
    ∧ (held_real w →
       Forall2 (λ i c, (c = Card_default ∧ Player_score (player_at w' i) = 0)
                       ∨ (0 < number c)%Z) ps cs).
Proof.
  induction ps as [|i ps IH]; intros w; simpl.
  { exists [], w. split_and!; auto using frame_refl. simpl. lia. }
  unfold bind.
  destruct (decide (Player_score (player_at w i) = 0)) as [Hz|Hnz].
  - rewrite playCard_at_zero by done.
    destruct (IH w) as (cs & w' & -> & Hf & Hlen & Htot & Hz2 & Hr).
    exists (Card_default :: cs), w'.
    split; [done|]. split; [done|]. split; [simpl; lia|].
    split; [by rewrite filter_cons_False by (by vm_compute)|].
    split; [by constructor|].
    intros Hh. constructor; [|by apply Hr]. left. split; [done|].
    destruct Hf as (_&_&_&_&_&_&Hle&_). specialize (Hle i). lia.
  - destruct (playCard_at_nonzero i w Hnz) as (c & w1 & -> & Hf1 & Hlt & Hc & Hq).
    destruct (IH w1) as (cs & w' & -> & Hf & Hlen & Htot & Hz2 & Hr).
    exists (c :: cs), w'.
    split; [done|]. split; [by eapply frame_trans|]. split; [simpl; lia|].
    split.
    { pose proof (length_filter (λ c, real c) [c]) as Hfl.
      change (c :: cs) with ([c] ++ cs). rewrite filter_app, length_app.
      simpl in Hfl. lia. }
    split.
    { constructor; [done|]. eapply Forall2_impl; [apply Hz2|].
      intros j x Hx Hj. apply Hx.
      destruct Hf1 as (_&_&_&_&_&_&_&Hzero&_). by rewrite Hzero. }
    intros Hh. constructor.
    + right. unfold held_real in Hh. rewrite Forall_forall in Hh.
      specialize (Hh _ (list_elem_of_lookup_2 _ _ _ Hq)).
      rewrite Forall_forall in Hh. by apply Hh.
    + apply Hr. destruct Hf1 as (_&_&_&_&_&_&_&_&Hreal). by apply Hreal.
Qed.

Lemma get_played_cards_props ps w cs w' :
  get_played_cards ps w = Return cs w' →
  frame w w'
  ∧ length cs = length ps
  ∧ total_score (players (self w')) + length (filter (λ c, real c) cs)
    ≤ total_score (players (self w))
  ∧ Forall2 (λ i c, Player_score (player_at w i) = 0 → c = Card_default) ps cs
  ∧ (held_real w →
     Forall2 (λ i c, (c = Card_default ∧ Player_score (player_at w' i) = 0)
                     ∨ (0 < number c)%Z) ps cs).
Proof.
  intros H. destruct (get_played_cards_spec ps w) as (cs' & w'' & H' & Hrest).
  rewrite H in H'. by simplify_eq.
Qed.

Lemma get_played_cards_no_cards ps w :
  Forall (λ i, Player_score (player_at w i) = 0) ps →
  get_played_cards ps w = Return (replicate (length ps) Card_default) w.
Proof.
  induction 1 as [|i ps Hi _ IH]; [done|].
  simpl. unfold bind. rewrite playCard_at_zero by done. by rewrite IH.
Qed.

(** ** The highest rank and the tied players *)

Lemma highest_rank_from_ge cs : ∀ m c,
  c ∈ cs → (number c ≤ foldl (λ m c, Z.max m (number c)) m cs)%Z.
Proof.
  induction cs as [|a cs IH]; intros m c Hc; [by apply elem_of_nil in Hc|].
  apply elem_of_cons in Hc as [->|Hc]; simpl.
  - pose proof (highest_rank_from_le cs (Z.max m (number a))). lia.
  - by apply IH.
Qed.

Lemma highest_rank_from_attained cs : ∀ m,
  let h := foldl (λ m c, Z.max m (number c)) m cs in
  h = m ∨ ∃ c, c ∈ cs ∧ number c = h.
Proof.
  induction cs as [|a cs IH]; intros m; simpl; [by left|].
  destruct (IH (Z.max m (number a))) as [H|(c & Hc & H)].
  - destruct (Z.max_spec m (number a)) as [[_ Hm]|[_ Hm]].
    + right. exists a. split; [by left|]. lia.
    + left. lia.
  - right. exists c. split; [by right|done].
Qed.

Lemma tied_players_elem ps cs p :
  p ∈ tied_players ps cs →
  ∃ k c, ps !! k = Some p ∧ cs !! k = Some c
         ∧ number c = highest_rank cs ∧ number c ≠ 0%Z.
Proof.
  unfold tied_players. intros ([q c] & -> & Hin)%list_elem_of_fmap.
  apply list_elem_of_filter in Hin as [[H1 H2] Hin]. simpl in *.
  apply list_elem_of_lookup in Hin as [k Hk].
  apply lookup_zip_with_Some in Hk as (x & y & Heq & Hx & Hy).
  injection Heq as <- <-. by exists k, c.
Qed.

Lemma tied_players_intro ps cs k p c :
  ps !! k = Some p → cs !! k = Some c →
  number c = highest_rank cs → number c ≠ 0%Z →
  p ∈ tied_players ps cs.
Proof.
  intros Hp Hc Hm H0. unfold tied_players.
  apply list_elem_of_fmap. exists (p, c). split; [done|].
  apply list_elem_of_filter. split; [done|].
  apply list_elem_of_lookup. exists k.
  apply lookup_zip_with_Some. by exists p, c.
Qed.

(** No tied player: no card of positive rank was played. *)
Lemma tied_players_nil ps cs :
  length cs = length ps → tied_players ps cs = [] →
  Forall (λ c, (number c ≤ 0)%Z) cs.
Proof.
  intros Hlen Hnil.
  destruct (highest_rank_from_attained cs 0%Z) as [H0|(c & Hc & Hm)].
  - apply Forall_forall. intros c Hc.
    pose proof (highest_rank_from_ge cs 0%Z c Hc). lia.
  - destruct (decide (highest_rank cs = 0%Z)) as [H0|Hne].
    { apply Forall_forall. intros c' Hc'.
      pose proof (highest_rank_from_ge cs 0%Z c' Hc'). unfold highest_rank in H0. lia. }
    apply list_elem_of_lookup in Hc as [k Hk].
    destruct (lookup_lt_is_Some_2 ps k) as [p Hp].
    { rewrite <- Hlen. by eapply lookup_lt_Some. }
    assert (p ∈ tied_players ps cs) as Hin.
    { eapply tied_players_intro; [done..|]. unfold highest_rank in Hne. lia. }
    rewrite Hnil in Hin. by apply elem_of_nil in Hin.
Qed.

(** ** One round *)

Lemma playRound_step fuel ps field w cs w2 :
  get_played_cards ps (next_round w) = Return cs w2 →
  playRound (S fuel) ps field w
  = if 1 <? length (tied_players ps cs) then
      breakDraw (playRound fuel) field cs (tied_players ps cs) w2
    else
      match tied_players ps cs with
      | [] => Raise IndexError w2
      | winner :: _ =>
          (let* _ := award_cards winner cs field in update_scoreboard) w2
      end.
Proof.
  intros H. pose proof (get_played_cards_props _ _ _ _ H) as (_ & Hlen & _).
  cbn [playRound]. unfold bind at 1 2, incr_round. rewrite H.
  rewrite find_winning_players_tied by done.
  destruct (1 <? length (tied_players ps cs)); [done|].
  by destruct (tied_players ps cs).
Qed.

Lemma next_round_frame w :
  players (self (next_round w)) = players (self w)
  ∧ score (self (next_round w)) = score (self w)
  ∧ round (self (next_round w)) = (round (self w) + 1)%Z
  ∧ (∀ i, player_at (next_round w) i = player_at w i)
  ∧ (held_real w → held_real (next_round w)).
Proof. done. Qed.

(** C10.  A round among players who all have no card plays the rank-0 card
    for each of them, finds no winner and raises [IndexError] at
    [winingPlayers[0]]; the world it leaves has the round counter already
    incremented and is otherwise unchanged.  The branch is reached by the
    program: with two players and the deal of [tie_tape] the first round
    is a chain of thirteen wars that empties both players, and [playGame]
    raises in round 14 with only the row of the deal in the table. *)
Theorem playRound_all_sentinel :
  (∀ fuel ps field w,
     Forall (λ i, Player_score (player_at w i) = 0) ps →
     get_played_cards ps (next_round w)
       = Return (replicate (length ps) Card_default) (next_round w)
     ∧ find_winning_players ps (replicate (length ps) Card_default) = Some []
     ∧ playRound (S fuel) ps field w = Raise IndexError (next_round w)
     ∧ round (self (next_round w)) = (round (self w) + 1)%Z
     ∧ players (self (next_round w)) = players (self w)
     ∧ score (self (next_round w)) = score (self w))
  ∧ (∃ w w', new_game 2 tie_tape = inr w
       ∧ playGame 100 w = Raise IndexError w'
       ∧ Player_score <$> players (self w') = [0; 0]
       ∧ round (self w') = 14%Z
       ∧ length (score (self w')) = 1).
Proof.
  split.
  - intros fuel ps field w Hall.
    assert (Hg : get_played_cards ps (next_round w)
                 = Return (replicate (length ps) Card_default) (next_round w)).
    { by apply get_played_cards_no_cards. }
    assert (Ht : tied_players ps (replicate (length ps) Card_default) = []).
    { unfold tied_players. clear. generalize (highest_rank (replicate (length ps) Card_default)).
      intros m. induction ps as [|p ps IH]; [done|]. simpl.
      rewrite filter_cons_False by (simpl; lia). done. }
    split_and!; try done.
    + rewrite find_winning_players_tied by by rewrite length_replicate. by rewrite Ht.
    + rewrite (playRound_step _ _ _ _ _ _ Hg), Ht. done.
  - destruct (new_game 2 tie_tape) as [e|w] eqn:Hw; [by vm_compute in Hw|].
    destruct (playGame 100 w) as [a w'|e w'|] eqn:Hp.
    1,3: vm_compute in Hw; injection Hw as <-; by vm_compute in Hp.
    exists w, w'. vm_compute in Hw. injection Hw as <-.
    vm_compute in Hp. injection Hp as <- <-. by vm_compute.
Qed.

Lemma playRound_all_sentinel_witness :
  playRound 1 [0; 1] []
    (mkWorld (mkGame [mkPlayer "Player 1" [] []; mkPlayer "Player 2" [] []] 0 [] [] [])
       (mkRng (λ _, 0) 0))
  = Raise IndexError
      (mkWorld (mkGame [mkPlayer "Player 1" [] []; mkPlayer "Player 2" [] []] 1 [] [] [])
         (mkRng (λ _, 0) 0)).
Proof.
  refine (proj1 (proj2 (proj2 (proj1 playRound_all_sentinel 0 [0; 1] [] _ _)))).
  repeat constructor.
Defined.

Lemma player_at_insert w w' i j p :
  players (self w') = <[i := p]> (players (self w)) →
  player_at w' j = if decide (i = j ∧ i < length (players (self w))) then p else player_at w j.
Proof.
  intros H. rewrite <- (player_at_set w i j p (random w)).
  unfold player_at. by rewrite H.
Qed.

Lemma frame_length w w' : frame w w' → length (players (self w')) = length (players (self w)).
Proof.
  intros (_&_&_&_&Hn&_). apply (f_equal length) in Hn. by rewrite !length_fmap in Hn.
Qed.

(** ** The row of the scoreboard and its [Int16] columns *)

Lemma dict_set_values (P : Z → Prop) k v (d : dict) :
  P v → Forall (λ kv, P kv.2) d → Forall (λ kv, P kv.2) (dict_set k v d).
Proof.
  intros Hv. induction d as [|[k' v'] d IH]; intros Hd; simpl.
  { by constructor. }
  apply Forall_cons in Hd as [Hv' Hd].
  destruct (String.eqb k k'); constructor; auto.
Qed.

Lemma dict_union_values (P : Z → Prop) (b : dict) : ∀ a : dict,
  Forall (λ kv, P kv.2) a → Forall (λ kv, P kv.2) b →
  Forall (λ kv, P kv.2) (dict_union a b).
Proof.
  unfold dict_union. induction b as [|[k v] b IH]; intros a Ha Hb; simpl; [done|].
  apply Forall_cons in Hb as [Hv Hb]. apply IH; [|done].
  by apply dict_set_values.
Qed.

Lemma Player_score_le_total (ps : list Player) p :
  p ∈ ps → Player_score p ≤ total_score ps.
Proof.
  unfold total_score. induction ps as [|q ps IH]; intros Hin.
  { by apply elem_of_nil in Hin. }
  rewrite fmap_cons. cbn [sum_list sum_list_with]. unfold id at 1.
  change (sum_list_with id (Player_score <$> ps)) with (sum_list (Player_score <$> ps)).
  apply elem_of_cons in Hin as [->|Hin]; [lia|].
  specialize (IH Hin). lia.
Qed.

Lemma scoreboard_row_fits w :
  row_fits w → forallb (λ kv, fits_Int16 kv.2) (scoreboard_row (self w)) = true.
Proof.
  intros [Hr Ht].
  assert (HF : Forall (λ kv, (-32768 ≤ kv.2 ≤ 32767)%Z) (scoreboard_row (self w))).
  { unfold scoreboard_row.
    apply (dict_union_values (λ v, (-32768 ≤ v ≤ 32767)%Z)).
    - apply (dict_union_values (λ v, (-32768 ≤ v ≤ 32767)%Z)).
      + by constructor.
      + apply (dict_union_values (λ v, (-32768 ≤ v ≤ 32767)%Z)); [constructor|].
        apply Forall_fmap, Forall_forall. intros p Hp. simpl.
        pose proof (Player_score_le_total _ _ Hp). lia.
    - constructor; [simpl; lia|constructor]. }
  induction HF as [|kv row Hkv _ IH]; [done|].
  cbn [forallb]. rewrite IH, andb_true_r.
  unfold fits_Int16. apply andb_true_intro. split; apply Z.leb_le; lia.
Qed.

Lemma update_scoreboard_cases w :
  update_scoreboard w = Return tt (row_appended w)
  ∨ (update_scoreboard w = Raise TypeError (row_refused w) ∧ ¬ row_fits w).
Proof.
  unfold update_scoreboard, row_appended, row_refused.
  destruct (forallb _ (scoreboard_row (self w))) eqn:E; [by left|right].
  split; [done|]. intros Hfit. apply scoreboard_row_fits in Hfit. congruence.
Qed.

Lemma update_scoreboard_fits w :
  row_fits w → update_scoreboard w = Return tt (row_appended w).
Proof. intros Hfit. by destruct (update_scoreboard_cases w) as [?|[_ ?]]. Qed.

Lemma update_scoreboard_fields w w' :
  final_world (update_scoreboard w) = Some w' →
  scoreSchema (self w') = scoreSchema (self w)
  ∧ players (self w') = players (self w)
  ∧ round (self w') = round (self w).
Proof.
  intros Hfin.
  destruct (update_scoreboard_cases w) as [Hu|[Hu _]]; rewrite Hu in Hfin;
    by injection Hfin as <-.
Qed.

(** The award to the single winner and the row of the round: the award is
    made, and the row is appended or refused. *)
Lemma award_then_update winner cs field w :
  ∃ w',
    (((let* _ := award_cards winner cs field in update_scoreboard) w = Return tt w'
      ∧ score (self w') = score (self w) ++ [latestResults (self w')])
     ∨ ((let* _ := award_cards winner cs field in update_scoreboard) w = Raise TypeError w'
        ∧ score (self w') = score (self w)
        ∧ ¬ row_fits w'))
    ∧ players (self w') = <[winner := awarded (player_at w winner) cs field]> (players (self w))
    ∧ round (self w') = round (self w)
    ∧ scoreSchema (self w') = scoreSchema (self w)
    ∧ random w' = random w
    ∧ latestResults (self w') = scoreboard_row (self w').
Proof.
  unfold bind, award_cards.
  match goal with |- context [update_scoreboard ?x] => set (wa := x) end.
  destruct (update_scoreboard_cases wa) as [->|[-> Hno]].
  - exists (row_appended wa). split; [by left|done].
  - exists (row_refused wa). split; [|done]. right. split_and!; [done..|].
    intros Hfit. apply Hno. exact Hfit.
Qed.

Lemma breakDraw_step (rec : list nat → list Card → M unit) field cs tied w extra w' :
  get_played_cards tied w = Return extra w' →
  breakDraw rec field cs tied w = rec tied (field ++ (cs ++ extra)) w'.
Proof. intros H. unfold breakDraw, bind. by rewrite H. Qed.

(** A tied player held a card when the round began. *)
Lemma tied_players_in_range ps cs w w2 p :
  get_played_cards ps w = Return cs w2 →
  p ∈ tied_players ps cs →
  Player_score (player_at w p) ≠ 0
  ∧ p < length (players (self w2))
  ∧ ∃ c, c ∈ filter (λ c, real c) cs.
Proof.
  intros Hg Hp. pose proof (get_played_cards_props _ _ _ _ Hg) as (Hf & Hlen & _ & Hz & _).
  apply tied_players_elem in Hp as (k & c & Hk & Hc & _ & Hne).
  pose proof (Forall2_lookup_lr _ _ _ _ _ _ Hz Hk Hc) as Hzc. simpl in Hzc.
  assert (Hs : Player_score (player_at w p) ≠ 0).
  { intros H0. apply Hzc in H0. subst c. by apply Hne. }
  split_and!; [done| |].
  - rewrite (frame_length _ _ Hf).
    destruct (decide (p < length (players (self w)))) as [|Hge]; [done|].
    exfalso. apply Hs, player_at_None, lookup_ge_None. lia.
  - exists c. apply list_elem_of_filter. split; [|by eapply list_elem_of_lookup_2].
    unfold real. destruct (number c =? 0)%Z eqn:E; [|done]. by apply Z.eqb_eq in E.
Qed.

(** ** Termination of the war *)

(** C7.  With fuel above the number of cards the players hold, so with 53
    for a deal of 52 cards, [playRound] does not run out of fuel in a world
    whose held cards have positive ranks.  It ends in one of three ways: it
    returns, having awarded cards to one of its players and appended one
    row; or it raises [TypeError] after that award, with no row appended,
    because the round counter or the scores are beyond the [Int16] columns
    of the table; or it raises [IndexError] in a world where the players of
    its last layer, the given ones or at least two tied ones among them,
    all have no card left. *)
Theorem playRound_terminates fuel : ∀ ps field w,
  total_score (players (self w)) < fuel →
  held_real w →
  (∃ w' winner,
     ((playRound fuel ps field w = Return tt w'
       ∧ score (self w') = score (self w) ++ [latestResults (self w')])
      ∨ (playRound fuel ps field w = Raise TypeError w'
         ∧ score (self w') = score (self w)
         ∧ ¬ row_fits w'))
     ∧ winner ∈ ps
     ∧ won_cards (player_at w' winner) ≠ [])
  ∨ (∃ w' tied, playRound fuel ps field w = Raise IndexError w'
       ∧ tied `sublist_of` ps
       ∧ (tied = ps ∨ 1 < length tied)
       ∧ Forall (λ i, Player_score (player_at w' i) = 0) tied).
Proof.
  induction fuel as [|fuel IH]; intros ps field w Hfuel Hreal; [lia|].
  destruct (get_played_cards_spec ps (next_round w))
    as (cs & w2 & Hg & Hf & Hlen & Htot & Hz & Hr).
  specialize (Hr Hreal).
  rewrite (playRound_step _ _ _ _ _ _ Hg).
  pose proof (tied_players_sublist ps cs) as Hsub.
  destruct (1 <? length (tied_players ps cs)) eqn:Hwar;
    [apply Nat.ltb_lt in Hwar|apply Nat.ltb_ge in Hwar].
  - (* a war *)
    destruct (get_played_cards_spec (tied_players ps cs) w2)
      as (extra & w3 & Hg3 & Hf3 & _ & Htot3 & _).
    rewrite (breakDraw_step _ _ _ _ _ _ _ Hg3).
    assert (Hdec : total_score (players (self w3)) < fuel).
    { destruct (tied_players ps cs) as [|p tl] eqn:Ht; [simpl in Hwar; lia|].
      destruct (tied_players_in_range _ _ _ _ p Hg) as (_ & _ & c & Hc).
      { rewrite Ht. by left. }
      assert (0 < length (filter (λ c, real c) cs)).
      { destruct (filter (λ c, real c) cs); [by apply elem_of_nil in Hc|simpl; lia]. }
      change (players (self (next_round w))) with (players (self w)) in Htot. lia. }
    assert (Hreal3 : held_real w3).
    { destruct Hf3 as (_&_&_&_&_&_&_&_&H3). apply H3.
      destruct Hf as (_&_&_&_&_&_&_&_&H2). by apply H2. }
    assert (Hs : score (self w3) = score (self w)).
    { destruct Hf3 as (_&Hs3&_). destruct Hf as (_&Hs2&_). by rewrite Hs3, Hs2. }
    destruct (IH (tied_players ps cs) (field ++ cs ++ extra) w3 Hdec Hreal3)
      as [(w' & winner & Hout & Hin & Hwon)|(w' & tied & -> & Hst & Hor & Hall)].
    + left. exists w', winner. split_and!; [|by eapply sublist_subseteq|done].
      rewrite <- Hs. exact Hout.
    + right. exists w', tied. split_and!; [done|by etrans| |done].
      right. destruct Hor as [->|?]; done.
  - destruct (tied_players ps cs) as [|winner tl] eqn:Ht.
    + (* nobody played a card *)
      right. exists w2, ps. split_and!; [done|done|by left|].
      apply tied_players_nil in Ht; [|done].
      apply Forall_forall. intros i Hi.
      apply list_elem_of_lookup in Hi as [k Hk].
      destruct (lookup_lt_is_Some_2 cs k) as [c Hc].
      { rewrite Hlen. by eapply lookup_lt_Some. }
      pose proof (Forall2_lookup_lr _ _ _ _ _ _ Hr Hk Hc) as [[_ H0]|Hpos]; [done|].
      rewrite Forall_forall in Ht. specialize (Ht c (list_elem_of_lookup_2 _ _ _ Hc)). lia.
    + (* one winner *)
      left. destruct (award_then_update winner cs field w2)
        as (w' & Hout & Hps & _).
      assert (Hs : score (self w2) = score (self w)).
      { by destruct Hf as (_&Hs2&_). }
      exists w', winner. split_and!.
      * rewrite <- Hs. exact Hout.
      * eapply sublist_subseteq; [done|]. by left.
      * destruct (tied_players_in_range _ _ _ _ winner Hg) as (_ & Hlt & c & Hc).
        { rewrite Ht. by left. }
        rewrite (player_at_insert _ _ _ winner _ Hps).
        rewrite decide_True by done. simpl.
        destruct (filter (λ c, real c) cs); [by apply elem_of_nil in Hc|].
        by destruct (won_cards (player_at w2 winner)).
Qed.

Lemma playRound_terminates_witness :
  (∃ w' winner,
     ((playRound 7 [0; 1] [] war_world = Return tt w'
       ∧ score (self w') = score (self war_world) ++ [latestResults (self w')])
      ∨ (playRound 7 [0; 1] [] war_world = Raise TypeError w'
         ∧ score (self w') = score (self war_world)
         ∧ ¬ row_fits w'))
     ∧ winner ∈ [0; 1]
     ∧ won_cards (player_at w' winner) ≠ [])
  ∨ (∃ w' tied, playRound 7 [0; 1] [] war_world = Raise IndexError w'
       ∧ tied `sublist_of` [0; 1]
       ∧ (tied = [0; 1] ∨ 1 < length tied)
       ∧ Forall (λ i, Player_score (player_at w' i) = 0) tied).
Proof.
  apply playRound_terminates; [vm_compute; lia|].
  unfold held_real, war_world, cards_of. simpl. repeat constructor.
Defined.

(** ** War *)




(** ** Players without cards *)

Lemma playRound_keeps_cardless fuel : ∀ ps field w w' i,
  playRound fuel ps field w = Return tt w' →
  Player_score (player_at w i) = 0 →
  player_at w' i = player_at w i.
Proof.
  induction fuel as [|fuel IH]; intros ps field w w' i Hrun Hz; [done|].
  destruct (get_played_cards_spec ps (next_round w))
    as (cs & w2 & Hg & Hf & Hlen & _).
  rewrite (playRound_step _ _ _ _ _ _ Hg) in Hrun.
  assert (H2 : player_at w2 i = player_at w i).
  { destruct Hf as (_&_&_&_&_&_&_&Hkeep&_). by apply Hkeep. }
  destruct (1 <? length (tied_players ps cs)) eqn:Hwar.
  - destruct (get_played_cards_spec (tied_players ps cs) w2)
      as (extra & w3 & Hg3 & Hf3 & _).
    rewrite (breakDraw_step _ _ _ _ _ _ _ Hg3) in Hrun.
    assert (H3 : player_at w3 i = player_at w2 i).
    { destruct Hf3 as (_&_&_&_&_&_&_&Hkeep&_). apply Hkeep. by rewrite H2. }
    rewrite <- H2, <- H3. apply (IH _ _ _ _ _ Hrun). by rewrite H3, H2.
  - destruct (tied_players ps cs) as [|winner tl] eqn:Ht; [done|].
    destruct (award_then_update winner cs field w2)
      as (w'' & [[Hw'' _]|[Hw'' _]] & Hps & _);
      rewrite Hw'' in Hrun; [|discriminate Hrun].
    injection Hrun as <-.
    destruct (tied_players_in_range _ _ _ _ winner Hg) as (Hs & _).
    { rewrite Ht. by left. }
    rewrite (player_at_insert _ _ _ i _ Hps), decide_False; [done|].
    intros [-> _]. by apply Hs.
Qed.

(** C6.  A player whose card of the round has rank 0 is not among the
    winners that [find_winning_players] computes, and the winners are the
    same when the rank-0 cards and their players are left out; a player
    without cards plays the rank-0 card, and is left as it is, with no
    card, by every round that returns. *)
Theorem sentinel_never_wins :
  (∀ ps cs winners,
     length cs = length ps → NoDup ps →
     find_winning_players ps cs = Some winners →
     (∀ k p c, ps !! k = Some p → cs !! k = Some c → number c = 0%Z → p ∉ winners)
     ∧ find_winning_players (drop_sentinels ps cs).*1 (drop_sentinels ps cs).*2
       = Some winners)
  ∧ (∀ p g, Player_score p = 0 →
       playCard p g = (Some Card_default, p, g) ∧ number Card_default = 0%Z)
  ∧ (∀ fuel ps field w w' i,
       playRound fuel ps field w = Return tt w' →
       Player_score (player_at w i) = 0 →
       player_at w' i = player_at w i ∧ Player_score (player_at w' i) = 0).
Proof.
  split_and!.
  - intros ps cs winners Hlen Hnd Hw.
    rewrite find_winning_players_tied in Hw by done. injection Hw as <-. split.
    + intros k p c Hk Hc H0 Hin.
      apply tied_players_elem in Hin as (k' & c' & Hk' & Hc' & _ & Hne).
      assert (k' = k) as -> by by eapply NoDup_lookup.
      congruence.
    + rewrite find_winning_players_pairs by by rewrite !length_fmap.
      rewrite zip_fst_snd. unfold drop_sentinels. rewrite winning_pairs_filter.
      rewrite <- find_winning_players_pairs by done.
      by apply find_winning_players_tied.
  - intros p g Hz. split; [by apply playCard_zero|done].
  - intros fuel ps field w w' i Hrun Hz.
    pose proof (playRound_keeps_cardless _ _ _ _ _ _ Hrun Hz) as H. by rewrite H.
Qed.

Lemma sentinel_never_wins_witness :
  (1 ∉ [0]) ∧ find_winning_players [0] [mkCard 4 "BC"] = Some [0].
Proof.
  destruct (proj1 sentinel_never_wins [0; 1] [mkCard 4 "BC"; Card_default] [0])
    as [H1 H2]; [reflexivity|by apply (bool_decide_unpack _)|reflexivity|].
  split; [by apply (H1 1 1 Card_default)|exact H2].
Defined.

(** ** Dictionaries *)

Lemma dict_set_fresh k v (d : dict) : k ∉ d.*1 → dict_set k v d = d ++ [(k, v)].
Proof.
  induction d as [|[k' v'] d IH]; intros Hk; simpl; [done|].
  apply not_elem_of_cons in Hk as [Hne Hk].
  destruct (String.eqb_spec k k') as [->|_]; [done|]. by rewrite IH.
Qed.

Lemma dict_union_fresh (b : dict) : ∀ a : dict,
  NoDup (a.*1 ++ b.*1) → dict_union a b = a ++ b.
Proof.
  unfold dict_union. induction b as [|[k v] b IH]; intros a Hnd; simpl.
  { by rewrite app_nil_r. }
  rewrite dict_set_fresh.
  - rewrite IH; [by rewrite <- app_assoc|].
    rewrite fmap_app. simpl. by rewrite <- app_assoc.
  - apply NoDup_app in Hnd as (_ & Hd & _). intros Hin. apply (Hd _ Hin). by left.
Qed.

Lemma dict_get_elem (d : dict) k v : NoDup d.*1 → (k, v) ∈ d → dict_get k d = Some v.
Proof.
  induction d as [|[k' v'] d IH]; intros Hnd Hin; [by apply elem_of_nil in Hin|].
  simpl in *. apply NoDup_cons in Hnd as [Hk' Hnd].
  apply elem_of_cons in Hin as [[= -> ->]|Hin].
  - by rewrite String.eqb_refl.
  - destruct (String.eqb_spec k k') as [->|_]; [|by apply IH].
    destruct Hk'. apply list_elem_of_fmap. by exists (k', v).
Qed.

Lemma sum_scores (ps : list Player) :
  foldr Z.add 0%Z ((λ p, Z.of_nat (Player_score p)) <$> ps) = Z.of_nat (total_score ps).
Proof.
  unfold total_score. induction ps as [|p ps IH]; [done|].
  rewrite !fmap_cons. cbn [foldr sum_list sum_list_with]. rewrite IH.
  change (sum_list_with id (Player_score <$> ps)) with (sum_list (Player_score <$> ps)).
  unfold id. lia.
Qed.

Lemma row_layout (r t : Z) (kvs : dict) :
  NoDup kvs.*1 → "Round" ∉ kvs.*1 → "Total" ∉ kvs.*1 →
  dict_union (dict_union [("Round", r)] (dict_of kvs)) [("Total", t)]
  = ("Round", r) :: kvs ++ [("Total", t)]
  ∧ NoDup (("Round", r) :: kvs ++ [("Total", t)]).*1.
Proof.
  intros Hnd Hr Ht.
  assert (Hall : NoDup (("Round", r) :: kvs ++ [("Total", t)]).*1).
  { rewrite fmap_cons, fmap_app. simpl. apply NoDup_cons. split.
    - intros [?|Hin]%elem_of_app; [done|].
      apply list_elem_of_singleton in Hin. discriminate.
    - apply NoDup_app. split_and!; [done| |apply NoDup_singleton].
      intros x Hx ->%list_elem_of_singleton. done. }
  split; [|done].
  rewrite fmap_cons, fmap_app in Hall. simpl in Hall.
  unfold dict_of. rewrite (dict_union_fresh kvs []) by done.
  rewrite (dict_union_fresh kvs [_]).
  - rewrite (dict_union_fresh [_]); [done|].
    by rewrite fmap_app.
  - simpl. apply NoDup_cons in Hall as [Hn Hall]. apply NoDup_cons. split.
    + intros Hin. apply Hn, elem_of_app. by left.
    + by apply NoDup_app in Hall as (? & _).
Qed.

(** ** The score table *)

Arguments CreateShuffleDeck : simpl never.
Arguments shuffle : simpl never.
Arguments deck52 : simpl never.

Lemma scoreboard_row_spec w :
  names_ok w →
  scoreboard_row (self w)
  = ("Round", round (self w))
      :: ((λ p, (name p, Z.of_nat (Player_score p))) <$> players (self w))
      ++ [("Total", Z.of_nat (total_score (players (self w))))]
  ∧ row_total_ok (names w) (scoreboard_row (self w)) = true
  ∧ dict_get "Total" (scoreboard_row (self w))
    = Some (Z.of_nat (total_score (players (self w)))).
Proof.
  intros (Hnd & Hr & Ht). unfold names in *. unfold scoreboard_row.
  set (kvs := (λ p, (name p, Z.of_nat (Player_score p))) <$> players (self w)).
  assert (Hkeys : kvs.*1 = name <$> players (self w)).
  { unfold kvs. rewrite <- list_fmap_compose. done. }
  assert (Hvals : kvs.*2 = (λ p, Z.of_nat (Player_score p)) <$> players (self w)).
  { unfold kvs. rewrite <- list_fmap_compose. done. }
  destruct (row_layout (round (self w)) (Z.of_nat (total_score (players (self w)))) kvs)
    as [Hrow Hall]; [by rewrite Hkeys..|].
  rewrite Hrow.
  set (row := _ :: _ ++ _) in *.
  assert (Htot : dict_get "Total" row = Some (Z.of_nat (total_score (players (self w))))).
  { apply dict_get_elem; [done|].
    unfold row. apply elem_of_cons. right. apply elem_of_app. right. by left. }
  split_and!; try done.
  unfold row_total_ok. rewrite Htot.
  assert (Hm : mapM (λ n, dict_get n row) (name <$> players (self w)) = Some kvs.*2).
  { apply mapM_Some. rewrite <- Hkeys. apply Forall2_fmap, Forall_Forall2_diag.
    apply Forall_forall. intros [k v] Hkv. apply (dict_get_elem row k v); [done|].
    unfold row. apply elem_of_cons. right. apply elem_of_app. by left. }
  rewrite Hm, Hvals, sum_scores. apply Z.eqb_refl.
Qed.

Lemma update_scoreboard_spec w :
  names_ok w →
  row_fits w →
  ∃ w', update_scoreboard w = Return tt w'
    ∧ players (self w') = players (self w)
    ∧ round (self w') = round (self w)
    ∧ random w' = random w
    ∧ score (self w') = score (self w) ++ [latestResults (self w')]
    ∧ latestResults (self w')
      = ("Round", round (self w))
          :: ((λ p, (name p, Z.of_nat (Player_score p))) <$> players (self w))
          ++ [("Total", Z.of_nat (total_score (players (self w))))]
    ∧ row_total_ok (names w) (latestResults (self w')) = true
    ∧ dict_get "Total" (latestResults (self w'))
      = Some (Z.of_nat (total_score (players (self w)))).
Proof.
  intros Hok Hfit. destruct (scoreboard_row_spec w Hok) as (Hrow & Htot & Hget).
  exists (row_appended w). split; [by apply update_scoreboard_fits|].
  cbn [row_appended self players round random score latestResults].
  split_and!; done.
Qed.

(** A row with a value beyond [Int16] is refused. *)
Lemma update_scoreboard_overflow w :
  names_ok w →
  ¬ row_fits w →
  update_scoreboard w = Raise TypeError (row_refused w).
Proof.
  intros Hok Hno. destruct (scoreboard_row_spec w Hok) as (Hrow & _).
  unfold update_scoreboard.
  destruct (forallb _ (scoreboard_row (self w))) eqn:E; [exfalso|done].
  apply Hno. rewrite Hrow in E. cbn [forallb] in E.
  apply andb_prop in E as [Hr E]. rewrite forallb_app in E.
  apply andb_prop in E as [_ Ht]. cbn [forallb] in Ht. rewrite andb_true_r in Ht.
  unfold fits_Int16 in Hr, Ht. cbn [snd] in Hr, Ht.
  apply andb_prop in Hr as [Hr1 Hr2]. apply andb_prop in Ht as [_ Ht].
  apply Z.leb_le in Hr1, Hr2, Ht. split; [lia|exact Ht].
Qed.

(** In both outcomes the table is extended by rows with the right total:
    by one such row, or by none. *)
Lemma update_scoreboard_table w w' :
  names_ok w →
  final_world (update_scoreboard w) = Some w' →
  table_extends w w'.
Proof.
  intros Hok Hfin. destruct (scoreboard_row_spec w Hok) as (_ & Htot & _).
  destruct (update_scoreboard_cases w) as [Hu|[Hu _]]; rewrite Hu in Hfin;
    injection Hfin as <-; (split; [done|]).
  - exists [scoreboard_row (self w)]. split; [done|]. by constructor.
  - exists []. split; [by rewrite app_nil_r|constructor].
Qed.

Lemma table_extends_frame w w' : frame w w' → table_extends w w'.
Proof.
  intros (_&Hs&_&_&Hn&_). split; [done|]. exists []. by rewrite Hs, app_nil_r.
Qed.

Lemma table_extends_trans w1 w2 w3 :
  table_extends w1 w2 → table_extends w2 w3 → table_extends w1 w3.
Proof.
  intros (Hn1 & rows1 & Hs1 & Hok1) (Hn2 & rows2 & Hs2 & Hok2).
  split; [congruence|]. exists (rows1 ++ rows2). split.
  - by rewrite Hs2, Hs1, <- app_assoc.
  - apply Forall_app. split; [done|]. by rewrite <- Hn1.
Qed.

Lemma names_ok_eq w w' : names w' = names w → names_ok w → names_ok w'.
Proof. unfold names_ok. by intros ->. Qed.

Lemma award_cards_spec winner cs field w :
  ∃ w', award_cards winner cs field w = Return tt w'
    ∧ players (self w') = <[winner := awarded (player_at w winner) cs field]> (players (self w))
    ∧ names w' = names w
    ∧ score (self w') = score (self w)
    ∧ round (self w') = round (self w).
Proof.
  eexists. unfold award_cards. split; [done|]. simpl. split_and!; try done.
  unfold names. simpl. rewrite list_fmap_insert. apply list_insert_id'.
  intros Hi. rewrite length_fmap in Hi.
  destruct (lookup_lt_is_Some_2 _ _ Hi) as [q Hq].
  by rewrite list_lookup_fmap, (player_at_lookup _ _ _ Hq), Hq.
Qed.

Lemma playRound_table fuel : ∀ ps field w w',
  names_ok w →
  final_world (playRound fuel ps field w) = Some w' →
  table_extends w w'.
Proof.
  induction fuel as [|fuel IH]; intros ps field w w' Hok Hfin; [done|].
  destruct (get_played_cards_spec ps (next_round w))
    as (cs & w2 & Hg & Hf & _).
  assert (Hext2 : table_extends w w2) by by apply (table_extends_frame (next_round w)).
  rewrite (playRound_step _ _ _ _ _ _ Hg) in Hfin.
  destruct (1 <? length (tied_players ps cs)).
  - destruct (get_played_cards_spec (tied_players ps cs) w2)
      as (extra & w3 & Hg3 & Hf3 & _).
    rewrite (breakDraw_step _ _ _ _ _ _ _ Hg3) in Hfin.
    assert (Hext3 : table_extends w w3).
    { eapply table_extends_trans; [done|]. by apply table_extends_frame. }
    eapply table_extends_trans; [done|].
    eapply IH; [|done]. eapply names_ok_eq; [|done]. apply Hext3.
  - destruct (tied_players ps cs) as [|winner tl].
    + simpl in Hfin. by injection Hfin as <-.
    + unfold bind in Hfin.
      destruct (award_cards_spec winner cs field w2) as (wa & -> & _ & Hna & Hsa & _) in Hfin.
      assert (Hoka : names_ok wa).
      { eapply names_ok_eq; [|done]. rewrite Hna. apply Hext2. }
      eapply table_extends_trans; [done|].
      destruct (update_scoreboard_table wa w' Hoka Hfin) as (Hnb & rows & Hsb & Hrows).
      split; [by rewrite Hnb|].
      exists rows. split; [by rewrite Hsb, Hsa|]. by rewrite <- Hna.
Qed.

Lemma table_extends_refl w : table_extends w w.
Proof. apply table_extends_frame, frame_refl. Qed.

Lemma game_loop_table fuel : ∀ w w',
  names_ok w → final_world (game_loop fuel w) = Some w' → table_extends w w'.
Proof.
  induction fuel as [|fuel IH]; intros w w' Hok Hfin; [done|].
  simpl in Hfin. destruct (isWinner w).
  { injection Hfin as <-. apply table_extends_refl. }
  unfold bind in Hfin.
  destruct (playRound fuel (all_players w) [] w) as [[] w1|e w1|] eqn:Hr; [| |done].
  - assert (Hext : table_extends w w1).
    { eapply playRound_table; [done|]. by rewrite Hr. }
    eapply table_extends_trans; [done|].
    apply IH; [|done]. eapply names_ok_eq; [|done]. apply Hext.
  - injection Hfin as <-. eapply playRound_table; [done|]. by rewrite Hr.
Qed.

Lemma distributeCards_table w w' :
  final_world (distributeCards w) = Some w' →
  names w' = names w ∧ score (self w') = score (self w) ∧ round (self w') = round (self w).
Proof.
  unfold distributeCards. destruct (CreateShuffleDeck (random w)) as [deck g'].
  destruct (length (players (self w))); simpl; intros [= <-]; [done|].
  split; [|done]. unfold names. simpl. rewrite fmap_imap.
  by rewrite <- (imap_const name).
Qed.

Lemma player_name_inj : Inj (=) (=) (λ i : nat, "Player " +:+ pretty (i + 1)).
Proof.
  intros i j H. apply (inj (String.app "Player ")) in H. apply (inj pretty) in H. lia.
Qed.

Lemma new_game_names_ok playersCount t w :
  new_game playersCount t = inr w →
  names_ok w
  ∧ score (self w) = []
  ∧ names w = (λ i : nat, "Player " +:+ pretty (i + 1)) <$> seq 0 (Z.to_nat playersCount).
Proof.
  unfold new_game. destruct (init playersCount) as [e|c] eqn:Hi; [done|].
  intros [= <-]. unfold init in Hi. case_match; [|done]. injection Hi as <-.
  unfold names_ok, names. simpl. rewrite <- list_fmap_compose.
  split_and!; [| | |done|done].
  - apply (@NoDup_fmap_2 nat string _ player_name_inj), NoDup_seq.
  - intros (i & Hi & _)%list_elem_of_fmap. discriminate.
  - intros (i & Hi & _)%list_elem_of_fmap. discriminate.
Qed.

(** C8.  [update_scoreboard] appends one row, whose total is the sum of
    the columns of the players, and leaves the rows before it, when the
    round and the total fit the [Int16] columns of the table; when they do
    not, it raises [TypeError] and leaves the table as it was.  A round,
    whatever its outcome, leaves a table that is the table before it
    followed by rows of that kind; and every row of the table that
    [playGame] builds for a new game has its total equal to the sum of
    the columns of the players. *)
Theorem scoreboard_append_only :
  (∀ w, names_ok w →
     (row_fits w →
      ∃ w', update_scoreboard w = Return tt w'
        ∧ score (self w') = score (self w) ++ [latestResults (self w')]
        ∧ row_total_ok (names w) (latestResults (self w')) = true
        ∧ dict_get "Total" (latestResults (self w'))
          = Some (Z.of_nat (total_score (players (self w)))))
     ∧ (¬ row_fits w →
        ∃ w', update_scoreboard w = Raise TypeError w'
          ∧ score (self w') = score (self w)))
  ∧ (∀ fuel ps field w w',
       names_ok w →
       final_world (playRound fuel ps field w) = Some w' →
       table_extends w w')
  ∧ (∀ playersCount t fuel w w',
       new_game playersCount t = inr w →
       final_world (playGame fuel w) = Some w' →
       Forall (λ r, row_total_ok (names w') r = true) (score (self w'))).
Proof.
  split_and!.
  - intros w Hok. split.
    + intros Hfit.
      destruct (update_scoreboard_spec w Hok Hfit)
        as (w' & Hu & _ & _ & _ & Hs & _ & Hrow & Ht).
      by exists w'.
    + intros Hno. exists (row_refused w). split; [|done].
      by apply update_scoreboard_overflow.
  - apply playRound_table.
  - intros playersCount t fuel w w' Hnew Hfin.
    destruct (new_game_names_ok _ _ _ Hnew) as (Hok & Hempty & _).
    rewrite playGame_eq in Hfin.
    destruct (distributeCards w) as [[] w1|e w1|] eqn:Hd.
    3:{ rewrite (bind_OutOfFuel _ _ _ Hd) in Hfin. discriminate Hfin. }
    2:{ rewrite (bind_Raise _ _ _ _ _ Hd) in Hfin. injection Hfin as <-.
        destruct (distributeCards_table w w1) as (_ & Hs & _); [by rewrite Hd|].
        rewrite Hs, Hempty. constructor. }
    rewrite (bind_Return _ _ _ _ _ Hd) in Hfin.
    destruct (distributeCards_table w w1) as (Hn1 & Hs1 & _); [by rewrite Hd|].
    clear Hd.
    assert (Hok1 : names_ok w1) by by eapply names_ok_eq.
    assert (Hstart : table_extends w w1).
    { split; [done|]. exists []. split; [by rewrite Hs1, app_nil_r|constructor]. }
    assert (Hall : table_extends w w').
    { eapply table_extends_trans; [exact Hstart|].
      destruct (update_scoreboard w1) as [[] w2|e w2|] eqn:Hu.
      - rewrite (bind_Return _ _ _ _ _ Hu) in Hfin.
        assert (Hext2 : table_extends w1 w2).
        { apply update_scoreboard_table; [done|]. by rewrite Hu. }
        eapply table_extends_trans; [exact Hext2|].
        apply (game_loop_table fuel); [|done].
        eapply names_ok_eq; [|done]. apply Hext2.
      - rewrite (bind_Raise _ _ _ _ _ Hu) in Hfin. injection Hfin as <-.
        apply update_scoreboard_table; [done|]. by rewrite Hu.
      - rewrite (bind_OutOfFuel _ _ _ Hu) in Hfin. discriminate Hfin. }
    destruct Hall as (Hn & rows & Hs & Hrows).
    rewrite Hs, Hempty, Hn. exact Hrows.
Qed.

(** ** Dealing *)

Lemma deck52_real : Forall (λ c, (0 < number c)%Z) deck52.
Proof. vm_compute. repeat constructor. Qed.

Lemma CreateShuffleDeck_perm g : (CreateShuffleDeck g).1 ≡ₚ deck52.
Proof. apply shuffle_perm. Qed.

Lemma CreateShuffleDeck_length g : length (CreateShuffleDeck g).1 = 52.
Proof. by rewrite CreateShuffleDeck_perm. Qed.

Lemma chunks_concat (deck : list Card) c n : ∀ k,
  concat ((λ i, slice deck (i * c) ((i + 1) * c)) <$> seq k n)
  = take (n * c) (drop (k * c) deck).
Proof.
  induction n as [|n IH]; intros k; [done|].
  simpl. rewrite IH. unfold slice.
  replace ((k + 1) * c - k * c) with c by lia.
  replace (S k * c) with (k * c + c) by lia.
  rewrite <- drop_drop. apply take_take_drop.
Qed.

Lemma total_score_hands (ps : list Player) :
  Forall (λ p, won_cards p = []) ps →
  total_score ps = length (concat (hand <$> ps)).
Proof.
  unfold total_score. induction 1 as [|p ps Hp _ IH]; [done|].
  rewrite !fmap_cons. cbn [concat sum_list sum_list_with]. rewrite length_app.
  change (sum_list_with id (Player_score <$> ps)) with (sum_list (Player_score <$> ps)).
  rewrite IH. unfold id, Player_score. rewrite Hp. simpl. lia.
Qed.

(** Every player without cards is dealt its chunk of the shuffled deck. *)
Lemma distributeCards_spec w :
  players (self w) ≠ [] →
  Forall (λ p, hand p = [] ∧ won_cards p = []) (players (self w)) →
  ∃ w', distributeCards w = Return tt w'
    ∧ hand <$> players (self w')
      = (λ i, slice (CreateShuffleDeck (random w)).1
                (i * (52 / length (players (self w))))
                ((i + 1) * (52 / length (players (self w)))))
        <$> seq 0 (length (players (self w)))
    ∧ Forall (λ p, won_cards p = []) (players (self w'))
    ∧ names w' = names w
    ∧ score (self w') = score (self w)
    ∧ round (self w') = round (self w)
    ∧ random w' = (CreateShuffleDeck (random w)).2.
Proof.
  intros Hne Hempty.
  pose proof (CreateShuffleDeck_length (random w)) as Hlen.
  unfold distributeCards. destruct (CreateShuffleDeck (random w)) as [deck g'].
  cbn [fst snd] in *. rewrite Hlen.
  destruct (length (players (self w))) as [|n'] eqn:Hn.
  { destruct (players (self w)); [done|discriminate Hn]. }
  rewrite <- Hn. set (c := 52 / length (players (self w))).
  eexists. split; [done|]. unfold set_players, names.
  cbn [self players random score round]. split_and!; try done.
  - rewrite fmap_imap. rewrite <- imap_seq_0. apply imap_ext.
    intros i p Hp. simpl.
    rewrite Forall_forall in Hempty.
    destruct (Hempty p (list_elem_of_lookup_2 _ _ _ Hp)) as [-> _].
    unfold deque_extend. simpl. apply deque_small.
    unfold slice. rewrite length_take, length_drop, Hlen. unfold maxlen. lia.
  - apply Forall_forall. intros p Hp.
    apply list_elem_of_lookup in Hp as [i Hi].
    rewrite list_lookup_imap in Hi.
    destruct (players (self w) !! i) as [q|] eqn:Hq; [|done].
    injection Hi as <-. simpl.
    rewrite Forall_forall in Hempty.
    by destruct (Hempty q (list_elem_of_lookup_2 _ _ _ Hq)).
  - unfold names. simpl. rewrite fmap_imap. by rewrite <- (imap_const name).
Qed.

(** The deal of a new game: chunks of [52 / n] cards, the first
    [n * (52 / n)] cards of the shuffled deck in all. *)
Lemma distributeCards_new_game playersCount t w :
  new_game playersCount t = inr w →
  ∃ w', distributeCards w = Return tt w'
    ∧ hand <$> players (self w')
      = (λ i, slice (CreateShuffleDeck (mkRng t 0)).1
                (i * (52 / Z.to_nat playersCount))
                ((i + 1) * (52 / Z.to_nat playersCount)))
        <$> seq 0 (Z.to_nat playersCount)
    ∧ Forall (λ p, won_cards p = []) (players (self w'))
    ∧ concat (hand <$> players (self w'))
      = take (Z.to_nat playersCount * (52 / Z.to_nat playersCount))
          (CreateShuffleDeck (mkRng t 0)).1
    ∧ total_score (players (self w'))
      = Z.to_nat playersCount * (52 / Z.to_nat playersCount)
    ∧ names w' = names w
    ∧ score (self w') = []
    ∧ round (self w') = 0%Z.
Proof.
  intros Hnew. unfold new_game in Hnew.
  destruct (init playersCount) as [e|c] eqn:Hi; [done|]. injection Hnew as <-.
  destruct (proj1 (init_accepts playersCount)) as [H2 _]; [by exists c|].
  destruct (init_fresh playersCount c Hi)
    as (Hlen & Hempty & Hr & Hs & _).
  destruct (distributeCards_spec (mkWorld c (mkRng t 0)))
    as (w' & Hd & Hh & Hw & Hn & Hs' & Hr' & _).
  { cbn [self players]. intros Hnil. rewrite Hnil in Hlen. simpl in Hlen. lia. }
  { exact Hempty. }
  cbn [self players random score round] in *. rewrite Hlen in Hh.
  clear Hi.
  exists w'. split_and!; [exact Hd|exact Hh|exact Hw| | |exact Hn|congruence|congruence].
  - rewrite Hh, chunks_concat. by rewrite drop_0.
  - rewrite total_score_hands by done. rewrite Hh, chunks_concat, drop_0.
    rewrite length_take, CreateShuffleDeck_length.
    pose proof (Nat.Div0.mul_div_le 52 (Z.to_nat playersCount)). lia.
Qed.

(** C1 (where the code departs from it).  With seven players, a count the
    constructor accepts, every deal gives each player 7 cards, the first
    49 of the shuffled deck; the scores sum to 49 and the last three cards
    of the deck are with no player. *)
Theorem distributeCards_seven_players t :
  ∃ w w', new_game 7 t = inr w
    ∧ distributeCards w = Return tt w'
    ∧ (CreateShuffleDeck (mkRng t 0)).1 ≡ₚ deck52
    ∧ Forall (λ p, Player_score p = 7) (players (self w'))
    ∧ total_score (players (self w')) = 49
    ∧ concat (cards_of <$> players (self w')) = take 49 (CreateShuffleDeck (mkRng t 0)).1
    ∧ length (drop 49 (CreateShuffleDeck (mkRng t 0)).1) = 3.
Proof.
  destruct (new_game 7 t) as [e|w] eqn:Hnew; [by vm_compute in Hnew|].
  destruct (distributeCards_new_game 7 t w Hnew)
    as (w' & Hd & Hh & Hw & Hc & Ht & _).
  clear Hnew. exists w, w'.
  split; [reflexivity|]. split; [exact Hd|]. clear Hd.
  split; [apply CreateShuffleDeck_perm|].
  change (Z.to_nat 7) with 7 in *. change (52 / 7) with 7 in *.
  change (7 * 7) with 49 in *.
  split_and!; [|exact Ht| |].
  - apply Forall_forall. intros p Hp.
    rewrite Forall_forall in Hw. unfold Player_score. rewrite (Hw p Hp).
    assert (Hin : hand p ∈ hand <$> players (self w')) by by apply list_elem_of_fmap_2.
    rewrite Hh in Hin. apply list_elem_of_fmap in Hin as (i & -> & Hi).
    apply elem_of_seq in Hi.
    unfold slice. rewrite length_take, length_drop, CreateShuffleDeck_length.
    cbn [length]. lia.
  - rewrite <- Hc. f_equal. apply list_fmap_ext. intros i p Hp.
    rewrite Forall_forall in Hw. unfold cards_of.
    rewrite (Hw p (list_elem_of_lookup_2 _ _ _ Hp)). apply app_nil_r.
  - rewrite length_drop, CreateShuffleDeck_length. reflexivity.
Qed.

(** ** The end of the game *)

Lemma isWinner_iff w :
  isWinner w = true ↔ Exists (λ p, 52 ≤ Player_score p) (players (self w)).
Proof.
  unfold isWinner. induction (players (self w)) as [|p ps IH]; cbn [isWinner_from].
  - split; [done|]. by intros ?%Exists_nil.
  - rewrite Exists_cons. destruct (52 <=? Player_score p) eqn:E.
    + apply Nat.leb_le in E. split; [by left|done].
    + apply Nat.leb_gt in E. rewrite IH. split; [by right|]. intros [?|?]; [lia|done].
Qed.

(** A round of two players in which the first plays the higher card. *)
Lemma playRound_dominant fuel a b h1 h2 won1 n1 n2 r sch sc lr g :
  (0 < number b < number a)%Z →
  (0 ≤ r < 32767)%Z →
  length won1 + length h1 + length h2 + 2 ≤ 52 →
  ∃ row,
    playRound (S fuel) [0; 1] []
      (mkWorld (mkGame [mkPlayer n1 (a :: h1) won1; mkPlayer n2 (b :: h2) []] r sch sc lr) g)
    = Return tt
        (mkWorld
           (mkGame [mkPlayer n1 h1 (won1 ++ [a; b]); mkPlayer n2 h2 []]
              (r + 1) sch (sc ++ [row]) row) g).
Proof.
  intros Hab Hr Hcards. eexists.
  erewrite playRound_step; [|reflexivity].
  assert (Ht : tied_players [0; 1] [a; b] = [0]).
  { unfold tied_players, highest_rank. cbn [foldl zip zip_with].
    replace (Z.max (Z.max 0 (number a)) (number b)) with (number a) by lia.
    rewrite filter_cons_True by (simpl; lia).
    rewrite filter_cons_False by (simpl; lia). done. }
  rewrite Ht. cbn [length Nat.ltb Nat.leb].
  unfold bind, award_cards, player_at, set_players.
  cbn [self players round score scoreSchema latestResults random lookup list_lookup
       default from_option id insert list_insert name hand won_cards].
  assert (Hf : filter (λ c, real c) [a; b] = [a; b]).
  { assert (Hreal : ∀ c, (0 < number c)%Z → real c).
    { intros c Hc. unfold real. destruct (number c =? 0)%Z eqn:E; [|done].
      apply Z.eqb_eq in E. lia. }
    rewrite filter_cons_True by (apply Hreal; lia).
    rewrite filter_cons_True by (apply Hreal; lia). done. }
  rewrite Hf, filter_nil, app_nil_r.
  rewrite update_scoreboard_fits; [reflexivity|].
  split; [simpl; lia|].
  unfold total_score, Player_score. simpl. rewrite length_app. simpl. lia.
Qed.

(** Two players, the first holding the higher card at every position of
    the hands: the first wins every round and the loop ends when the hands
    are played out. *)
Lemma game_loop_dominant h1 : ∀ h2 won1 n1 n2 r sch sc lr g fuel,
  Forall2 (λ a b, (0 < number b < number a)%Z) h1 h2 →
  length won1 + 2 * length h1 = 52 →
  length h1 < fuel →
  (0 ≤ r)%Z →
  (r + Z.of_nat (length h1) ≤ 32767)%Z →
  ∃ won1' sc' lr',
    game_loop fuel
      (mkWorld (mkGame [mkPlayer n1 h1 won1; mkPlayer n2 h2 []] r sch sc lr) g)
    = Return tt
        (mkWorld
           (mkGame [mkPlayer n1 [] won1'; mkPlayer n2 [] []]
              (r + Z.of_nat (length h1)) sch sc' lr') g)
    ∧ length won1' = 52
    ∧ length sc' = length sc + length h1.
Proof.
  induction h1 as [|a h1 IH];
    intros h2 won1 n1 n2 r sch sc lr g fuel Hdom Hlen Hfuel Hr0 Hr1;
    (destruct fuel as [|f]; [lia|]).
  - apply Forall2_nil_inv_l in Hdom as ->.
    exists won1, sc, lr. cbn [game_loop].
    assert (Hw : isWinner (mkWorld (mkGame [mkPlayer n1 [] won1; mkPlayer n2 [] []]
                                      r sch sc lr) g) = true).
    { apply isWinner_iff. left. unfold Player_score. simpl in *. lia. }
    rewrite Hw. simpl in *. rewrite Z.add_0_r. split_and!; [done|lia|lia].
  - apply Forall2_cons_inv_l in Hdom as (b & h2' & Hab & Hdom & ->).
    pose proof (Forall2_length _ _ _ Hdom) as Hl2.
    cbn [game_loop].
    assert (Hw : isWinner (mkWorld (mkGame [mkPlayer n1 (a :: h1) won1;
                                            mkPlayer n2 (b :: h2') []] r sch sc lr) g)
                 = false).
    { apply not_true_is_false. rewrite isWinner_iff. cbn [self players].
      rewrite !Exists_cons, Exists_nil. unfold Player_score. simpl in *. lia. }
    rewrite Hw. destruct f as [|f]; [simpl in Hfuel; lia|].
    destruct (playRound_dominant f a b h1 h2' won1 n1 n2 r sch sc lr g Hab) as [row Hr].
    { simpl in Hr1. lia. }
    { simpl in Hlen. lia. }
    change (all_players _) with [0; 1].
    rewrite (bind_Return _ _ _ _ _ Hr).
    destruct (IH h2' (won1 ++ [a; b]) n1 n2 (r + 1)%Z sch (sc ++ [row]) row g (S f))
      as (won1' & sc' & lr' & Hrun & Hlw & Hls);
      [done| |simpl in Hfuel; lia|lia|simpl in Hr1; lia|].
    { rewrite length_app. simpl in *. lia. }
    exists won1', sc', lr'. rewrite Hrun.
    rewrite length_app in Hls. simpl in *.
    replace (r + 1 + Z.of_nat (length h1))%Z with (r + Z.pos (Pos.of_succ_nat (length h1)))%Z
      by lia.
    split_and!; [done|done|lia].
Qed.

(** C9.  [isWinner] is true exactly when some player holds at least 52
    cards.  In a game of two players whose deal gives the first player the
    higher card at every position of the two hands, [playGame] returns after
    26 rounds: the first player holds 52 cards and the second none,
    [isWinner] is true, and the table has 27 rows. *)
Theorem isWinner_and_dominant_game :
  (∀ w, isWinner w = true ↔ Exists (λ p, 52 ≤ Player_score p) (players (self w)))
  ∧ (∀ t w w1,
       new_game 2 t = inr w →
       distributeCards w = Return tt w1 →
       Forall2 (λ a b, (number b < number a)%Z)
         (hand (player_at w1 0)) (hand (player_at w1 1)) →
       ∃ w', playGame 27 w = Return tt w'
         ∧ Player_score (player_at w' 0) = 52
         ∧ Player_score (player_at w' 1) = 0
         ∧ isWinner w' = true
         ∧ length (score (self w')) = 27
         ∧ round (self w') = 26%Z).
Proof.
  split; [apply isWinner_iff|].
  intros t w w1 Hnew Hd Hdom.
  destruct (distributeCards_new_game 2 t w Hnew)
    as (w1' & Hd' & Hh & Hw & _ & _ & _ & Hs & Hr).
  rewrite Hd in Hd'. injection Hd' as <-.
  rewrite playGame_eq, (bind_Return _ _ _ _ _ Hd). clear Hd Hnew.
  pose proof (CreateShuffleDeck_perm (mkRng t 0)) as Hperm.
  pose proof (CreateShuffleDeck_length (mkRng t 0)) as Hlen.
  set (deck := (CreateShuffleDeck (mkRng t 0)).1) in *. clearbody deck.
  change (Z.to_nat 2) with 2 in Hh. change (52 / 2) with 26 in Hh.
  cbn [seq fmap list_fmap] in Hh. change ((0 + 1) * 26) with 26 in Hh.
  change (0 * 26) with 0 in Hh. change (1 * 26) with 26 in Hh.
  change ((1 + 1) * 26) with 52 in Hh.
  destruct w1 as [[ps r sch sc lr] g]. cbn [self players score round] in *. subst sc r.
  destruct ps as [|[n1 h1 w1] [|[n2 h2 w2] [|? ?]]]; try discriminate Hh.
  cbn [fmap list_fmap hand] in Hh. injection Hh as Hh1 Hh2.
  apply Forall_cons in Hw as [Hw1 Hw]. apply Forall_cons in Hw as [Hw2 _].
  cbn [won_cards] in *. subst w1 w2.
  unfold player_at in Hdom. cbn [self players lookup list_lookup default from_option
                                  id hand] in Hdom.
  assert (Hreal : Forall (λ c, (0 < number c)%Z) h2).
  { rewrite Hh2. unfold slice. apply Forall_take, Forall_drop.
    rewrite Hperm. apply deck52_real. }
  assert (Hdom' : Forall2 (λ a b, (0 < number b < number a)%Z) h1 h2).
  { clear -Hdom Hreal. induction Hdom as [|a b h1 h2 Hab _ IH]; [constructor|].
    apply Forall_cons in Hreal as [Hb Hreal]. constructor; [lia|by apply IH]. }
  assert (Hl1 : length h1 = 26).
  { rewrite Hh1. unfold slice. rewrite length_take, length_drop, Hlen. lia. }
  assert (Hl2 : length h2 = 26).
  { rewrite <- Hl1. symmetry. by eapply Forall2_length. }
  match goal with |- context [bind update_scoreboard _ ?x] =>
    assert (Hfit : row_fits x)
  end.
  { split; cbn [self round players]; [lia|].
    unfold total_score, Player_score. simpl. rewrite Hl1, Hl2. simpl. lia. }
  rewrite (bind_Return _ _ _ _ _ (update_scoreboard_fits _ Hfit)). clear Hfit.
  unfold row_appended.
  cbn [self players round score scoreSchema latestResults random app].
  match goal with
  | |- context [game_loop 27 (mkWorld (mkGame _ _ _ [?row] _) _)] => set (row0 := row)
  end.
  destruct (game_loop_dominant h1 h2 [] n1 n2 0%Z sch [row0] row0 g 27 Hdom')
    as (won1' & sc' & lr' & Hrun & Hlw & Hls); [simpl; lia|lia|lia|lia|].
  eexists. split; [exact Hrun|].
  unfold player_at, Player_score, isWinner.
  cbn [self players lookup list_lookup default from_option id hand won_cards
       score round length isWinner_from].
  unfold Player_score. cbn [hand won_cards length]. rewrite Hlw, Hl1 in *.
  simpl in Hls. split_and!; [done|done|done|lia|done].
Qed.

Lemma isWinner_and_dominant_game_witness :
  ∃ w w', new_game 2 high_tape = inr w
    ∧ playGame 27 w = Return tt w'
    ∧ Player_score (player_at w' 0) = 52
    ∧ isWinner w' = true
    ∧ length (score (self w')) = 27.
Proof.
  destruct (new_game 2 high_tape) as [e|w] eqn:Hnew; [by vm_compute in Hnew|].
  destruct (distributeCards w) as [[] w1|e w1|] eqn:Hd.
  2,3: vm_compute in Hnew; injection Hnew as <-; vm_compute in Hd; discriminate Hd.
  destruct (proj2 isWinner_and_dominant_game high_tape w w1 Hnew Hd)
    as (w' & Hrun & H52 & _ & Hwin & Hrows & _).
  { vm_compute in Hnew. injection Hnew as <-. vm_compute in Hd. injection Hd as <-.
    vm_compute. repeat constructor. }
  exists w, w'. split_and!; [reflexivity|exact Hrun|exact H52|exact Hwin|exact Hrows].
Defined.

Lemma scoreboard_append_only_witness :
  Forall (λ r, row_total_ok ["Player 1"; "Player 2"] r = true)
    (score (self war_world) ++
     [[("Round", 2%Z); ("Player 1", 6%Z); ("Player 2", 0%Z); ("Total", 6%Z)]]).
Proof.
  destruct (proj1 (proj2 scoreboard_append_only) 2 [0; 1] [] war_world
              (mkWorld
                 (mkGame [mkPlayer "Player 1" []
                            [mkCard 9 "RD"; mkCard 3 "BS"; mkCard 7 "BC"; mkCard 7 "RH";
                             mkCard 2 "BS"; mkCard 5 "BC"];
                          mkPlayer "Player 2" [] []]
                    2 [] [[("Round", 2%Z); ("Player 1", 6%Z); ("Player 2", 0%Z);
                           ("Total", 6%Z)]]
                    [("Round", 2%Z); ("Player 1", 6%Z); ("Player 2", 0%Z); ("Total", 6%Z)])
                 (mkRng (λ _, 0) 0)))
    as (_ & rows & Hs & Hrows).
  - split_and!; [by apply (bool_decide_unpack _)|by apply (bool_decide_unpack _)..].
  - reflexivity.
  - cbn [self score war_world] in Hs. apply (app_inv_head []) in Hs. subst rows.
    exact Hrows.
Defined.

(** * Further properties *)

(** ** The cards in play are conserved *)

Lemma real_positive c : (0 < number c)%Z → real c.
Proof.
  intros Hc. unfold real. destruct (number c =? 0)%Z eqn:E; [|done].
  apply Z.eqb_eq in E. lia.
Qed.

Lemma total_score_all_cards w : total_score (players (self w)) = length (all_cards w).
Proof.
  unfold total_score, all_cards. induction (players (self w)) as [|p ps IH]; [done|].
  rewrite !fmap_cons. cbn [concat sum_list sum_list_with]. rewrite length_app.
  change (sum_list_with id (Player_score <$> ps)) with (sum_list (Player_score <$> ps)).
  rewrite IH. unfold id, Player_score, cards_of. rewrite length_app. lia.
Qed.

Lemma held_real_all_cards w : held_real w ↔ Forall (λ c, (0 < number c)%Z) (all_cards w).
Proof.
  unfold held_real, all_cards. induction (players (self w)) as [|p ps IH].
  - split; constructor.
  - rewrite fmap_cons. cbn [concat]. rewrite Forall_cons, Forall_app. tauto.
Qed.

Lemma piles_fit_total w : total_score (players (self w)) ≤ maxlen → piles_fit w.
Proof.
  unfold piles_fit, total_score. induction (players (self w)) as [|p ps IH]; [constructor|].
  rewrite fmap_cons. cbn [sum_list sum_list_with].
  change (sum_list_with id (Player_score <$> ps)) with (sum_list (Player_score <$> ps)).
  unfold id at 1, Player_score at 1. intros H. constructor; [lia|]. apply IH. lia.
Qed.

(** Replacing one player exchanges its cards for those of the new one. *)
Lemma concat_cards_insert (l : list Player) : ∀ i p p',
  l !! i = Some p →
  cards_of p ++ concat (cards_of <$> <[i := p']> l)
  ≡ₚ cards_of p' ++ concat (cards_of <$> l).
Proof.
  induction l as [|q l IH]; intros [|i] p p' Hi; simplify_eq/=.
  - apply Permutation_app_swap_app.
  - rewrite Permutation_app_swap_app, (IH _ _ p' Hi). apply Permutation_app_swap_app.
Qed.

(** [playCard] on a player who has a card, and whose won pile fits a
    hand, takes exactly one card away. *)
Lemma playCard_exact p g :
  Player_score p ≠ 0 → length (won_cards p) ≤ maxlen →
  ∃ c p' g', playCard p g = (Some c, p', g')
    ∧ name p' = name p
    ∧ c :: cards_of p' ≡ₚ cards_of p
    ∧ Player_score p' + 1 = Player_score p
    ∧ length (won_cards p') ≤ length (won_cards p).
Proof.
  intros Hs Hfit. destruct (hand p) as [|c h] eqn:Hh.
  - destruct (playCard_refill p g Hs Hh) as (c & h & Hr & ->).
    rewrite refill_hand_fst in Hr. cbn [hand] in Hr.
    rewrite deque_small in Hr by by rewrite shuffle_length.
    pose proof (shuffle_perm (won_cards p) g) as Hperm. rewrite Hr in Hperm.
    eexists _, _, _. split; [done|].
    unfold cards_of, Player_score. rewrite Hh. cbn [hand won_cards name length app].
    rewrite app_nil_r. split_and!; [done|done| |lia].
    rewrite <- Hperm. simpl. lia.
  - rewrite (playCard_front p g c h Hh). eexists _, _, _. split; [done|].
    unfold cards_of, Player_score. rewrite Hh. cbn [hand won_cards name length app].
    split_and!; [done|done|lia|done].
Qed.

Lemma playCard_at_exact i w :
  piles_fit w → held_real w →
  Player_score (player_at w i) ≠ 0 →
  ∃ c w', playCard_at i w = Return c w'
    ∧ (0 < number c)%Z
    ∧ c :: all_cards w' ≡ₚ all_cards w
    ∧ piles_fit w'.
Proof.
  intros Hfit Hreal Hs.
  destruct (players (self w) !! i) as [q|] eqn:Hq;
    [|by rewrite player_at_None in Hs].
  pose proof (player_at_lookup _ _ _ Hq) as Hat. rewrite Hat in Hs.
  assert (Hq_in : q ∈ players (self w)) by by eapply list_elem_of_lookup_2.
  assert (Hfq : length (won_cards q) ≤ maxlen).
  { unfold piles_fit in Hfit. rewrite Forall_forall in Hfit. by apply Hfit. }
  destruct (playCard_exact q (random w) Hs Hfq)
    as (c & p' & g' & Hp & Hn & Hperm & _ & Hw').
  unfold playCard_at. rewrite Hat, Hp. eexists _, _. split; [done|].
  split_and!.
  - unfold held_real in Hreal. rewrite Forall_forall in Hreal.
    specialize (Hreal q Hq_in). rewrite Forall_forall in Hreal. apply Hreal.
    rewrite <- Hperm. by left.
  - unfold all_cards. cbn [self players set_players].
    pose proof (concat_cards_insert _ _ _ p' Hq) as Hins.
    rewrite <- Hperm in Hins. simpl in Hins.
    rewrite Permutation_middle in Hins. by apply Permutation_app_inv_l in Hins.
  - unfold piles_fit. cbn [self players set_players].
    apply Forall_insert; [done|]. lia.
Qed.

(** The cards of non-zero rank that a round collects are the cards that
    leave the players. *)
Lemma get_played_cards_exact ps : ∀ w cs w',
  piles_fit w → held_real w →
  get_played_cards ps w = Return cs w' →
  filter (λ c, real c) cs ++ all_cards w' ≡ₚ all_cards w
  ∧ piles_fit w' ∧ held_real w'
  ∧ Forall (λ c, (0 ≤ number c)%Z) cs.
Proof.
  induction ps as [|i ps IH]; intros w cs w' Hfit Hreal Hg; cbn [get_played_cards] in Hg.
  { injection Hg as <- <-. split_and!; try done. }
  destruct (decide (Player_score (player_at w i) = 0)) as [Hz|Hnz].
  - rewrite (bind_Return _ _ _ _ _ (playCard_at_zero i w Hz)) in Hg.
    destruct (get_played_cards_spec ps w) as (cs1 & w1 & Hg1 & _).
    rewrite (bind_Return _ _ _ _ _ Hg1) in Hg. injection Hg as <- <-.
    destruct (IH _ _ _ Hfit Hreal Hg1) as (Hperm & Hfit' & Hreal' & Hcs).
    rewrite filter_cons_False by (by vm_compute).
    split_and!; try done. constructor; [by vm_compute|done].
  - destruct (playCard_at_exact i w Hfit Hreal Hnz) as (c & w1 & Hp & Hc & Hperm1 & Hfit1).
    rewrite (bind_Return _ _ _ _ _ Hp) in Hg.
    assert (Hreal1 : held_real w1).
    { apply held_real_all_cards. apply held_real_all_cards in Hreal.
      rewrite <- Hperm1 in Hreal. by apply Forall_cons in Hreal as [_ ?]. }
    destruct (get_played_cards_spec ps w1) as (cs1 & w2 & Hg1 & _).
    rewrite (bind_Return _ _ _ _ _ Hg1) in Hg. injection Hg as <- <-.
    destruct (IH _ _ _ Hfit1 Hreal1 Hg1) as (Hperm & Hfit' & Hreal' & Hcs).
    rewrite filter_cons_True by by apply real_positive.
    split_and!; try done.
    + simpl. by rewrite Hperm.
    + constructor; [lia|done].
Qed.

Lemma all_cards_players w w' :
  players (self w') = players (self w) → all_cards w' = all_cards w.
Proof. unfold all_cards. by intros ->. Qed.

Lemma award_cards_all_cards winner cs field w w' :
  winner < length (players (self w)) →
  award_cards winner cs field w = Return tt w' →
  all_cards w' ≡ₚ all_cards w ++ filter (λ c, real c) cs ++ filter (λ c, real c) field.
Proof.
  intros Hlt Ha. destruct (award_cards_spec winner cs field w) as (w'' & Ha' & Hps & _).
  rewrite Ha in Ha'. injection Ha' as <-.
  destruct (lookup_lt_is_Some_2 _ _ Hlt) as [q Hq].
  rewrite (player_at_lookup _ _ _ Hq) in Hps.
  pose proof (concat_cards_insert _ _ _ (awarded q cs field) Hq) as Hins.
  unfold all_cards. rewrite Hps.
  apply (Permutation_app_inv_l (cards_of q)). rewrite Hins.
  unfold awarded, cards_of. cbn [hand won_cards]. solve_Permutation.
Qed.

Lemma playRound_conserves_cards fuel : ∀ ps field w w',
  piles_fit w → held_real w →
  playRound fuel ps field w = Return tt w' →
  all_cards w' ≡ₚ all_cards w ++ filter (λ c, real c) field.
Proof.
  induction fuel as [|fuel IH]; intros ps field w w' Hfit Hreal Hrun; [done|].
  destruct (get_played_cards_spec ps (next_round w)) as (cs & w2 & Hg & _).
  destruct (get_played_cards_exact ps (next_round w) _ _ Hfit Hreal Hg)
    as (Hp2 & Hfit2 & Hreal2 & _).
  change (all_cards (next_round w)) with (all_cards w) in Hp2.
  rewrite (playRound_step _ _ _ _ _ _ Hg) in Hrun.
  destruct (1 <? length (tied_players ps cs)).
  - destruct (get_played_cards_spec (tied_players ps cs) w2) as (extra & w3 & Hg3 & _).
    destruct (get_played_cards_exact _ _ _ _ Hfit2 Hreal2 Hg3) as (Hp3 & Hfit3 & Hreal3 & _).
    rewrite (breakDraw_step _ _ _ _ _ _ _ Hg3) in Hrun.
    rewrite (IH _ _ _ _ Hfit3 Hreal3 Hrun), !filter_app.
    rewrite <- Hp2, <- Hp3. solve_Permutation.
  - destruct (tied_players ps cs) as [|winner tl] eqn:Ht; [done|].
    destruct (tied_players_in_range _ _ _ _ winner Hg) as (_ & Hlt & _).
    { rewrite Ht. by left. }
    destruct (award_cards_spec winner cs field w2) as (wa & Ha & Hpa & _).
    rewrite (bind_Return _ _ _ _ _ Ha) in Hrun.
    pose proof (award_cards_all_cards _ _ _ _ _ Hlt Ha) as Hpa'.
    assert (Hpw : players (self w') = players (self wa)).
    { apply update_scoreboard_fields. by rewrite Hrun. }
    rewrite (all_cards_players _ _ Hpw), Hpa', <- Hp2. solve_Permutation.
Qed.

(** ** What a round does to the counter and the table *)

Lemma award_cards_fields winner cs field w w' :
  award_cards winner cs field w = Return tt w' →
  scoreSchema (self w') = scoreSchema (self w)
  ∧ latestResults (self w') = latestResults (self w)
  ∧ random w' = random w.
Proof. unfold award_cards. by intros [= <-]. Qed.

Lemma playRound_outcome fuel : ∀ ps field w,
  names_ok w →
  match playRound fuel ps field w with
  | Return _ w' =>
      (round (self w) < round (self w'))%Z
      ∧ score (self w') = score (self w) ++ [latestResults (self w')]
      ∧ latestResults (self w')
        = ("Round", round (self w'))
            :: ((λ p, (name p, Z.of_nat (Player_score p))) <$> players (self w'))
            ++ [("Total", Z.of_nat (total_score (players (self w'))))]
      ∧ names w' = names w
      ∧ scoreSchema (self w') = scoreSchema (self w)
  | Raise e w' =>
      (round (self w) < round (self w'))%Z
      ∧ score (self w') = score (self w)
      ∧ names w' = names w
      ∧ scoreSchema (self w') = scoreSchema (self w)
      ∧ ((e = IndexError ∧ latestResults (self w') = latestResults (self w))
         ∨ (e = TypeError
            ∧ ¬ row_fits w'
            ∧ latestResults (self w') = scoreboard_row (self w')))
  | OutOfFuel => True
  end.
Proof.
  induction fuel as [|fuel IH]; intros ps field w Hok; [done|].
  destruct (get_played_cards_spec ps (next_round w)) as (cs & w2 & Hg & Hf & _).
  destruct Hf as (Hr2 & Hs2 & Hsch2 & Hl2 & Hn2 & _).
  cbn [next_round self round score scoreSchema latestResults] in Hr2, Hs2, Hsch2, Hl2.
  change (name <$> players (self w2) = names w) in Hn2. fold (names w2) in Hn2.
  rewrite (playRound_step _ _ _ _ _ _ Hg).
  destruct (1 <? length (tied_players ps cs)).
  - destruct (get_played_cards_spec (tied_players ps cs) w2)
      as (extra & w3 & Hg3 & Hf3 & _).
    destruct Hf3 as (Hr3 & Hs3 & Hsch3 & Hl3 & Hn3 & _). fold (names w3) (names w2) in Hn3.
    rewrite (breakDraw_step _ _ _ _ _ _ _ Hg3).
    assert (Hok3 : names_ok w3) by (eapply names_ok_eq; [|done]; congruence).
    specialize (IH (tied_players ps cs) (field ++ cs ++ extra) w3 Hok3).
    destruct (playRound fuel _ _ w3) as [[] w'|e w'|]; [| |done].
    + destruct IH as (Hr & Hs & Hl & Hn & Hsch).
      split_and!; [lia|congruence|done|congruence|congruence].
    + destruct IH as (Hr & Hs & Hn & Hsch & Hcase).
      split_and!; [lia|congruence|congruence|congruence|].
      destruct Hcase as [[He Hl]|Hcase]; [left|by right]. split; [done|congruence].
  - destruct (tied_players ps cs) as [|winner tl].
    + split_and!; [lia|done|done|done|by left].
    + destruct (award_cards_spec winner cs field w2) as (wa & Ha & _ & Hna & Hsa & Hra).
      destruct (award_cards_fields _ _ _ _ _ Ha) as (Hscha & _).
      rewrite (bind_Return _ _ _ _ _ Ha).
      assert (Hoka : names_ok wa) by (eapply names_ok_eq; [|done]; congruence).
      destruct (scoreboard_row_spec wa Hoka) as (Hrow & _).
      destruct (update_scoreboard_cases wa) as [Hu|[Hu Hno]]; rewrite Hu.
      * cbn [row_appended self players round score scoreSchema latestResults].
        split_and!; [lia|by rewrite Hsa, Hs2|exact Hrow| |congruence].
        change (names wa = names w). congruence.
      * cbn [row_refused self players round score scoreSchema latestResults].
        split_and!; [lia|congruence| |congruence|].
        { change (names wa = names w). congruence. }
        right. split_and!; [done|exact Hno|reflexivity].
Qed.

(** No round gives the players more cards than they held and the field
    holds. *)
Lemma playRound_total fuel : ∀ ps field w w',
  final_world (playRound fuel ps field w) = Some w' →
  total_score (players (self w'))
  ≤ total_score (players (self w)) + length (filter (λ c, real c) field).
Proof.
  induction fuel as [|fuel IH]; intros ps field w w' Hfin; [done|].
  destruct (get_played_cards_spec ps (next_round w)) as (cs & w2 & Hg & _ & _ & Htot & _).
  change (players (self (next_round w))) with (players (self w)) in Htot.
  rewrite (playRound_step _ _ _ _ _ _ Hg) in Hfin.
  destruct (1 <? length (tied_players ps cs)).
  - destruct (get_played_cards_spec (tied_players ps cs) w2)
      as (extra & w3 & Hg3 & _ & _ & Htot3 & _).
    rewrite (breakDraw_step _ _ _ _ _ _ _ Hg3) in Hfin.
    specialize (IH _ _ _ _ Hfin). rewrite !filter_app, !length_app in IH. lia.
  - destruct (tied_players ps cs) as [|winner tl] eqn:Ht.
    + simpl in Hfin. injection Hfin as <-. lia.
    + destruct (tied_players_in_range _ _ _ _ winner Hg) as (_ & Hlt & _).
      { rewrite Ht. by left. }
      destruct (award_cards_spec winner cs field w2) as (wa & Ha & _).
      pose proof (award_cards_all_cards _ _ _ _ _ Hlt Ha) as Hpa.
      apply Permutation_length in Hpa. rewrite !length_app in Hpa.
      rewrite <- !total_score_all_cards in Hpa.
      rewrite (bind_Return _ _ _ _ _ Ha) in Hfin.
      destruct (update_scoreboard_fields wa w' Hfin) as (_ & -> & _). lia.
Qed.

(** ** The game of two or four players *)

Lemma row_keys (r t : Z) (ps : list Player) :
  (("Round", r) :: ((λ p, (name p, Z.of_nat (Player_score p))) <$> ps) ++ [("Total", t)]).*1
  = "Round" :: (name <$> ps) ++ ["Total"].
Proof.
  rewrite fmap_cons, fmap_app, <- list_fmap_compose. done.
Qed.

Lemma table_inv_snoc w w' :
  table_inv w →
  (round (self w) < round (self w'))%Z →
  scoreSchema (self w') = scoreSchema (self w) →
  score (self w') = score (self w) ++ [latestResults (self w')] →
  dict_get "Round" (latestResults (self w')) = Some (round (self w')) →
  dict_get "Total" (latestResults (self w')) = Some 52%Z →
  (latestResults (self w')).*1 = (scoreSchema (self w)).*1 →
  table_inv w'.
Proof.
  intros (Hrows & ks & Hks & Hsort & Hle) Hr Hsch Hs Hround Htot Hkeys.
  unfold table_inv. rewrite Hs, Hsch. split.
  - apply Forall_app. split; [done|]. by constructor.
  - exists (ks ++ [round (self w')]). split_and!.
    + unfold round_column in *. rewrite !fmap_app, Hks. simpl. by rewrite Hround.
    + apply StronglySorted_app_2; [|done|repeat constructor].
      intros k k' Hk ->%list_elem_of_singleton.
      rewrite Forall_forall in Hle. specialize (Hle k Hk). lia.
    + apply Forall_app. split; [|by constructor].
      eapply Forall_impl; [done|]. intros k Hk. simpl in Hk. lia.
Qed.

Lemma table_inv_keep w w' :
  table_inv w →
  (round (self w) ≤ round (self w'))%Z →
  scoreSchema (self w') = scoreSchema (self w) →
  score (self w') = score (self w) →
  table_inv w'.
Proof.
  intros (Hrows & ks & Hks & Hsort & Hle) Hr Hsch Hs.
  unfold table_inv. rewrite Hs, Hsch. split; [done|].
  exists ks. split_and!; [done|done|].
  eapply Forall_impl; [done|]. intros k Hk. simpl in Hk. lia.
Qed.

Lemma in_play_total w : in_play w → total_score (players (self w)) = 52.
Proof. intros (_ & Hp & _). by rewrite total_score_all_cards, Hp. Qed.

Lemma playRound_inv fuel ps w :
  in_play w → table_inv w →
  match playRound fuel ps [] w with
  | Return _ w' => in_play w' ∧ table_inv w'
  | Raise e w' => table_inv w'
  | OutOfFuel => True
  end.
Proof.
  intros Hin Htab. pose proof (in_play_total w Hin) as Htot.
  destruct Hin as (Hreal & Hperm & Hok & Hkeys).
  pose proof (playRound_outcome fuel ps [] w Hok) as Hout.
  destruct (playRound fuel ps [] w) as [[] w'|e w'|] eqn:Hrun; [| |done].
  - destruct Hout as (Hr & Hs & Hl & Hn & Hsch).
    assert (Hcards : all_cards w' ≡ₚ all_cards w).
    { rewrite (playRound_conserves_cards _ _ _ _ _ (piles_fit_total w ltac:(unfold maxlen; lia))
                 Hreal Hrun).
      by rewrite filter_nil, app_nil_r. }
    assert (Hin' : in_play w').
    { split_and!.
      - apply held_real_all_cards. rewrite Hcards. by apply held_real_all_cards.
      - by rewrite Hcards.
      - by eapply names_ok_eq.
      - by rewrite Hsch, Hn. }
    split; [done|].
    eapply table_inv_snoc; [done|done|done|done|..].
    + rewrite Hl. simpl. done.
    + rewrite Hl, (in_play_total w' Hin').
      apply dict_get_elem.
      * rewrite row_keys.
        destruct (row_layout 0 0 ((λ p, (name p, 0%Z)) <$> players (self w')))
          as [_ Hnd].
        { rewrite <- list_fmap_compose. apply Hin'. }
        { rewrite <- list_fmap_compose. apply Hin'. }
        { rewrite <- list_fmap_compose. apply Hin'. }
        rewrite fmap_cons, fmap_app, <- list_fmap_compose in Hnd. exact Hnd.
      * apply elem_of_cons. right. apply elem_of_app. right. by left.
    + rewrite Hl, row_keys, Hkeys. unfold names in Hn. by rewrite Hn.
  - destruct Hout as (Hr & Hs & _ & Hsch & _).
    eapply table_inv_keep; [done|lia|done|done].
Qed.

Lemma game_loop_inv fuel : ∀ w,
  in_play w → table_inv w →
  match game_loop fuel w with
  | Return _ w' => in_play w' ∧ table_inv w' ∧ isWinner w' = true
  | Raise e w' => table_inv w'
  | OutOfFuel => True
  end.
Proof.
  induction fuel as [|fuel IH]; intros w Hin Htab; [done|].
  cbn [game_loop]. destruct (isWinner w) eqn:Hw; [done|].
  pose proof (playRound_inv fuel (all_players w) w Hin Htab) as Hround.
  destruct (playRound fuel (all_players w) [] w) as [[] w1|e w1|] eqn:Hrun; [| |].
  - rewrite (bind_Return _ _ _ _ _ Hrun). destruct Hround as [Hin1 Htab1].
    by apply IH.
  - by rewrite (bind_Raise _ _ _ _ _ Hrun).
  - by rewrite (bind_OutOfFuel _ _ _ Hrun).
Qed.

Lemma new_game_schema playersCount t w :
  new_game playersCount t = inr w →
  (scoreSchema (self w)).*1 = "Round" :: names w ++ ["Total"].
Proof.
  intros Hnew. destruct (new_game_names_ok _ _ _ Hnew) as ((Hnd & Hr & Ht) & _).
  unfold new_game in Hnew. destruct (init playersCount) as [e|c] eqn:Hi; [discriminate Hnew|].
  injection Hnew as <-. unfold init in Hi. destruct (_ && _); [|discriminate Hi].
  injection Hi as <-. unfold names in *. cbn [self players scoreSchema] in *.
  set (ps := (λ i, Player_init ("Player " +:+ pretty (i + 1))) <$> _) in *.
  change (dict_set "Total" Int16 ?d) with (dict_union d [("Total", Int16)]).
  destruct (row_layout Int16 Int16 ((λ p, (name p, Int16)) <$> ps)) as [-> _].
  1-3: by rewrite <- list_fmap_compose.
  rewrite fmap_cons, fmap_app, <- list_fmap_compose. done.
Qed.

Lemma distributeCards_schema w w' :
  distributeCards w = Return tt w' → scoreSchema (self w') = scoreSchema (self w).
Proof.
  unfold distributeCards. destruct (CreateShuffleDeck (random w)) as [deck g'].
  destruct (length (players (self w))); [discriminate|]. by intros [= <-].
Qed.

(** For two or four players the deal leaves the whole deck with the
    players. *)
Lemma deal_in_play playersCount t w :
  playersCount = 2%Z ∨ playersCount = 4%Z →
  new_game playersCount t = inr w →
  ∃ w1, distributeCards w = Return tt w1
    ∧ in_play w1
    ∧ all_cards w1 = (CreateShuffleDeck (mkRng t 0)).1
    ∧ score (self w1) = []
    ∧ round (self w1) = 0%Z.
Proof.
  intros Hn Hnew.
  destruct (distributeCards_new_game _ _ _ Hnew)
    as (w1 & Hd & _ & Hw & Hc & _ & Hnames & Hs & Hr).
  destruct (new_game_names_ok _ _ _ Hnew) as (Hok & _).
  pose proof (new_game_schema _ _ _ Hnew) as Hsch.
  pose proof (distributeCards_schema _ _ Hd) as Hsch1.
  clear Hnew. exists w1. split; [exact Hd|]. clear Hd.
  assert (Hall : all_cards w1 = (CreateShuffleDeck (mkRng t 0)).1).
  { unfold all_cards.
    assert (Heq : cards_of <$> players (self w1) = hand <$> players (self w1)).
    { apply list_fmap_ext. intros i p Hp. rewrite Forall_forall in Hw.
      unfold cards_of. rewrite (Hw p (list_elem_of_lookup_2 _ _ _ Hp)). apply app_nil_r. }
    rewrite Heq, Hc. apply take_ge. rewrite CreateShuffleDeck_length.
    destruct Hn as [-> | ->]; vm_compute; lia. }
  split_and!; [|exact Hall|exact Hs|exact Hr].
  split_and!.
  - apply held_real_all_cards. rewrite Hall, CreateShuffleDeck_perm. apply deck52_real.
  - rewrite Hall. apply CreateShuffleDeck_perm.
  - by eapply names_ok_eq.
  - by rewrite Hsch1, Hsch, Hnames.
Qed.

(** The world after the deal and the first row. *)
Lemma start_in_play playersCount t w :
  playersCount = 2%Z ∨ playersCount = 4%Z →
  new_game playersCount t = inr w →
  ∃ w1 w2, distributeCards w = Return tt w1
    ∧ update_scoreboard w1 = Return tt w2
    ∧ in_play w2 ∧ table_inv w2
    ∧ score (self w2) = [latestResults (self w2)]
    ∧ dict_get "Round" (latestResults (self w2)) = Some 0%Z
    ∧ all_cards w2 = (CreateShuffleDeck (mkRng t 0)).1.
Proof.
  intros Hn Hnew.
  destruct (deal_in_play _ _ _ Hn Hnew) as (w1 & Hd & Hin1 & Hall & Hs & Hr).
  clear Hnew. exists w1. destruct (Hin1) as (Hreal & Hperm & Hok & Hkeys).
  assert (Hfit1 : row_fits w1).
  { split; [rewrite Hr; lia|]. rewrite (in_play_total w1 Hin1). lia. }
  destruct (update_scoreboard_spec w1 Hok Hfit1)
    as (w2 & Hu & Hp2 & Hr2 & _ & Hs2 & Hl2 & _ & Ht2).
  destruct (update_scoreboard_fields w1 w2) as (Hsch2 & _); [by rewrite Hu|].
  exists w2. split; [exact Hd|]. clear Hd. split; [exact Hu|].
  assert (Hin2 : in_play w2).
  { unfold in_play, held_real, all_cards, names_ok, names in *. rewrite Hp2, Hsch2. done. }
  rewrite Hs in Hs2. cbn [app] in Hs2.
  assert (Hround : dict_get "Round" (latestResults (self w2)) = Some 0%Z).
  { rewrite Hl2, Hr. done. }
  split_and!; [done| |done|done|].
  - unfold table_inv. rewrite Hs2. split.
    + constructor; [|constructor]. split.
      * rewrite Ht2, (in_play_total w1 Hin1). done.
      * rewrite Hl2, row_keys, Hsch2, Hkeys. done.
    + exists [0%Z]. unfold round_column. cbn [fmap list_fmap]. rewrite Hround.
      split_and!; [done|repeat constructor|]. constructor; [|constructor]. lia.
  - rewrite <- Hall. by apply all_cards_players.
Qed.

Lemma no_cards_concat (ps : list Player) :
  total_score ps = 0 → concat (cards_of <$> ps) = [] ∧ Forall (λ q, Player_score q = 0) ps.
Proof.
  unfold total_score. induction ps as [|q ps IH]; [done|].
  rewrite !fmap_cons. cbn [concat sum_list sum_list_with].
  change (sum_list_with id (Player_score <$> ps)) with (sum_list (Player_score <$> ps)).
  unfold id at 1. intros H. destruct IH as [IH1 IH2]; [lia|].
  assert (Hq : Player_score q = 0) by lia.
  split; [|by constructor]. rewrite IH1, app_nil_r.
  unfold Player_score in Hq. unfold cards_of.
  destruct (hand q), (won_cards q); simpl in *; [done|lia..].
Qed.

Lemma total_score_app (a b : list Player) :
  total_score (a ++ b) = total_score a + total_score b.
Proof.
  unfold total_score. induction a as [|q a IH]; [done|].
  rewrite <- app_comm_cons, !fmap_cons. cbn [sum_list sum_list_with].
  change (sum_list_with id (Player_score <$> a ++ b))
    with (sum_list (Player_score <$> a ++ b)).
  change (sum_list_with id (Player_score <$> a)) with (sum_list (Player_score <$> a)).
  rewrite IH. lia.
Qed.

(** A player who holds as many cards as all players together holds them
    all. *)
Lemma sole_holder (ps : list Player) i p :
  ps !! i = Some p → total_score ps ≤ Player_score p →
  concat (cards_of <$> ps) = cards_of p
  ∧ ∀ j q, ps !! j = Some q → j ≠ i → Player_score q = 0.
Proof.
  intros Hi Hle. pose proof (take_drop_middle _ _ _ Hi) as Hmid.
  assert (Htot : total_score ps
                 = total_score (take i ps) + (Player_score p + total_score (drop (S i) ps))).
  { rewrite <- Hmid at 1. rewrite total_score_app.
    change (p :: drop (S i) ps) with ([p] ++ drop (S i) ps). rewrite total_score_app.
    unfold total_score at 2. simpl. unfold id. lia. }
  destruct (no_cards_concat (take i ps)) as [Hc1 Hz1]; [lia|].
  destruct (no_cards_concat (drop (S i) ps)) as [Hc2 Hz2]; [lia|].
  split.
  - rewrite <- Hmid at 1. rewrite fmap_app, fmap_cons, concat_app. cbn [concat].
    by rewrite Hc1, Hc2, app_nil_r.
  - intros j q Hj Hne. rewrite Forall_forall in Hz1, Hz2.
    destruct (decide (j < i)) as [Hlt|Hge].
    + apply Hz1. eapply list_elem_of_lookup_2. by rewrite lookup_take_lt.
    + apply Hz2. apply (list_elem_of_lookup_2 _ (j - S i)).
      rewrite lookup_drop. by replace (S i + (j - S i)) with j by lia.
Qed.

(** X12.  A game of two or four players that [playGame] finishes ends with
    one player holding the 52 cards of the deck and every other player
    holding none. *)
Theorem playGame_winner_holds_deck playersCount t fuel w w' :
  playersCount = 2%Z ∨ playersCount = 4%Z →
  new_game playersCount t = inr w →
  playGame fuel w = Return tt w' →
  all_cards w' ≡ₚ deck52
  ∧ ∃ i p, players (self w') !! i = Some p
      ∧ cards_of p ≡ₚ deck52
      ∧ Player_score p = 52
      ∧ ∀ j q, players (self w') !! j = Some q → j ≠ i → Player_score q = 0.
Proof.
  intros Hn Hnew Hrun.
  destruct (start_in_play _ _ _ Hn Hnew) as (w1 & w2 & Hd & Hu & Hin2 & Htab2 & _).
  clear Hnew. rewrite playGame_eq, (bind_Return _ _ _ _ _ Hd) in Hrun. clear Hd.
  rewrite (bind_Return _ _ _ _ _ Hu) in Hrun.
  pose proof (game_loop_inv fuel w2 Hin2 Htab2) as Hinv. rewrite Hrun in Hinv.
  destruct Hinv as (Hin & _ & Hwin).
  pose proof (in_play_total w' Hin) as Htot.
  destruct Hin as (_ & Hperm & _). split; [done|].
  apply isWinner_iff, Exists_exists in Hwin as (p & Hp & H52).
  apply list_elem_of_lookup in Hp as [i Hi].
  destruct (sole_holder _ i p Hi) as [Hc Hothers]; [lia|].
  exists i, p. unfold all_cards in Hperm. rewrite Hc in Hperm.
  split_and!; [done|done| |done].
  apply Permutation_length in Hperm. unfold cards_of in Hperm.
  rewrite length_app in Hperm. unfold Player_score. rewrite Hperm. done.
Qed.

Lemma playGame_winner_holds_deck_witness :
  ∃ w', playGame 27 (mkWorld (mkGame [Player_init "Player 1"; Player_init "Player 2"] 0
                                [("Round", Int16); ("Player 1", Int16); ("Player 2", Int16);
                                 ("Total", Int16)] [] []) (mkRng high_tape 0))
        = Return tt w'
    ∧ all_cards w' ≡ₚ deck52.
Proof.
  destruct (playGame 27 _) as [[] w'|e w'|] eqn:Hrun; [|by vm_compute in Hrun..].
  exists w'. split; [reflexivity|].
  apply (playGame_winner_holds_deck 2 high_tape 27 _ w' (or_introl eq_refl) eq_refl Hrun).
Defined.

(** ** The deck and the deal *)

(** X1.  [CreateShuffleDeck] returns, whatever the generator draws, the 52
    cards of the ranks 1 to 13 in the four suits, each once: no card twice,
    no card of rank 0. *)
Theorem CreateShuffleDeck_deck g :
  (CreateShuffleDeck g).1 ≡ₚ deck52
  ∧ length (CreateShuffleDeck g).1 = 52
  ∧ NoDup (CreateShuffleDeck g).1
  ∧ ∀ c, c ∈ (CreateShuffleDeck g).1 ↔ (1 ≤ number c ≤ 13)%Z ∧ color c ∈ colors.
Proof.
  pose proof (CreateShuffleDeck_perm g) as Hperm.
  split; [done|]. split; [apply CreateShuffleDeck_length|].
  assert (Hnd : NoDup deck52) by (apply (bool_decide_unpack _); by vm_compute).
  split; [by rewrite Hperm|].
  intros c. rewrite Hperm. split.
  - assert (Hall : Forall (λ c, (1 ≤ number c ≤ 13)%Z ∧ color c ∈ colors) deck52)
      by (apply (bool_decide_unpack _); by vm_compute).
    rewrite Forall_forall in Hall. apply Hall.
  - destruct c as [n col]. cbn [number color]. intros [Hn Hc].
    assert (Hz : n ∈ seqZ 1 13) by (apply elem_of_seqZ; lia).
    unfold colors in Hc. cbn in Hz.
    repeat (apply elem_of_cons in Hc as [->|Hc]);
      try (by apply elem_of_nil in Hc);
      repeat (apply elem_of_cons in Hz as [->|Hz]);
      try (by apply elem_of_nil in Hz);
      apply (bool_decide_unpack _); by vm_compute.
Qed.

Lemma accepted_counts (k : nat) :
  2 ≤ k → 56 `mod` k = 0 → (k * (52 / k) = 52 ↔ k = 2 ∨ k = 4).
Proof.
  intros H2 Hm.
  assert (Hle : k ≤ 56).
  { destruct (decide (k ≤ 56)) as [|Hgt]; [done|].
    rewrite Nat.mod_small in Hm by lia. lia. }
  assert (Hall : forallb (λ k, implb (56 `mod` k =? 0)
                    (Bool.eqb (k * (52 / k) =? 52) ((k =? 2) || (k =? 4))))
                   (seq 2 55) = true) by by vm_compute.
  rewrite forallb_forall in Hall. specialize (Hall k).
  rewrite (proj2 (Nat.eqb_eq _ _) Hm) in Hall. cbn [implb] in Hall.
  assert (Hin : In k (seq 2 55)) by (apply in_seq; lia).
  apply Hall, Bool.eqb_prop in Hin.
  rewrite <- Nat.eqb_eq, Hin, orb_true_iff, !Nat.eqb_eq. done.
Qed.

(** X2.  For every player count the constructor accepts, [distributeCards]
    returns with [52 // n] cards in every hand and empty won piles; the
    players hold the first [n * (52 // n)] cards of the shuffled deck, in
    the order of the players, and they hold all 52 cards exactly when there
    are 2 or 4 players. *)
Theorem distributeCards_counts playersCount t w :
  new_game playersCount t = inr w →
  ∃ w', distributeCards w = Return tt w'
    ∧ Forall (λ p, length (hand p) = 52 / Z.to_nat playersCount ∧ won_cards p = [])
        (players (self w'))
    ∧ all_cards w'
      = take (Z.to_nat playersCount * (52 / Z.to_nat playersCount))
          (CreateShuffleDeck (mkRng t 0)).1
    ∧ (total_score (players (self w')) = 52 ↔ playersCount = 2%Z ∨ playersCount = 4%Z)
    ∧ score (self w') = [] ∧ round (self w') = 0%Z.
Proof.
  intros Hnew.
  assert (Hacc : (2 ≤ playersCount)%Z ∧ 56 `mod` Z.to_nat playersCount = 0).
  { clear -Hnew. unfold new_game in Hnew.
    destruct (init playersCount) as [e|c] eqn:Hi; [discriminate Hnew|]. clear Hnew.
    destruct (proj1 (init_accepts playersCount)) as [H2 Hdiv]; [by exists c|].
    split; [done|]. destruct Hdiv as [z Hz].
    assert (0 < z)%Z by nia.
    replace 56 with (Z.to_nat z * Z.to_nat playersCount) by nia.
    apply Nat.Div0.mod_mul. }
  destruct (distributeCards_new_game _ _ _ Hnew)
    as (w' & Hd & Hh & Hw & Hc & Ht & _ & Hs & Hr).
  clear Hnew. exists w'. split; [exact Hd|]. clear Hd. destruct Hacc as [H2 Hm].
  split_and!; [| | |exact Hs|exact Hr].
  - apply Forall_forall. intros p Hp. rewrite Forall_forall in Hw. split; [|by apply Hw].
    assert (Hin : hand p ∈ hand <$> players (self w')) by by apply list_elem_of_fmap_2.
    rewrite Hh in Hin. apply list_elem_of_fmap in Hin as (i & -> & Hi).
    apply elem_of_seq in Hi.
    unfold slice. rewrite length_take, length_drop, CreateShuffleDeck_length.
    pose proof (Nat.Div0.mul_div_le 52 (Z.to_nat playersCount)). nia.
  - rewrite <- Hc. unfold all_cards. f_equal. apply list_fmap_ext. intros i p Hp.
    rewrite Forall_forall in Hw. unfold cards_of.
    rewrite (Hw p (list_elem_of_lookup_2 _ _ _ Hp)). apply app_nil_r.
  - rewrite Ht, (accepted_counts (Z.to_nat playersCount)) by lia. lia.
Qed.

Lemma distributeCards_counts_witness :
  ∃ w', distributeCards
          (mkWorld (mkGame [Player_init "Player 1"; Player_init "Player 2"] 0
                      [("Round", Int16); ("Player 1", Int16); ("Player 2", Int16);
                       ("Total", Int16)] [] []) (mkRng high_tape 0))
        = Return tt w'
    ∧ score (self w') = [].
Proof.
  destruct (distributeCards_counts 2 high_tape _ eq_refl) as (w' & Hd & _ & _ & _ & Hs & _).
  exists w'. split; [exact Hd|exact Hs].
Defined.

(** ** The hand and the won pile *)

(** X3.  Whatever the player holds, [refill_hand] leaves the won pile
    empty and the name as it was; the new hand has as many cards as the won
    pile had, but at most 56, all of them from the won pile; the cards that
    were in the hand play no part in the result. *)
Theorem refill_hand_bounds p g :
  won_cards (refill_hand p g).1 = []
  ∧ name (refill_hand p g).1 = name p
  ∧ length (hand (refill_hand p g).1) = length (won_cards p) `min` 56
  ∧ hand (refill_hand p g).1 ⊆+ won_cards p
  ∧ refill_hand p g = refill_hand (mkPlayer (name p) [] (won_cards p)) g.
Proof.
  rewrite !refill_hand_fst. cbn [won_cards name hand]. split_and!; try done.
  - by rewrite deque_length, shuffle_length.
  - unfold deque. etrans; [apply sublist_submseteq, sublist_drop|].
    by rewrite shuffle_perm.
Qed.

(** X4.  [playCard] on a player who holds a card, with a won pile of at most
    56 cards, returns a card and takes exactly that card from the player:
    the card and what the player holds afterwards are what the player held
    before, the score is one less, and the name is kept. *)
Theorem playCard_takes_one p g :
  Player_score p ≠ 0 → length (won_cards p) ≤ maxlen →
  ∃ c p' g', playCard p g = (Some c, p', g')
    ∧ name p' = name p
    ∧ c :: cards_of p' ≡ₚ cards_of p
    ∧ Player_score p' + 1 = Player_score p
    ∧ length (won_cards p') ≤ length (won_cards p).
Proof. apply playCard_exact. Qed.

Lemma playCard_takes_one_witness :
  ∃ c p' g',
    playCard (mkPlayer "Player 1" [] [mkCard 3 "BC"; mkCard 9 "RH"]) (mkRng (λ _, 0) 0)
    = (Some c, p', g')
    ∧ Player_score p' + 1 = 2.
Proof.
  destruct (playCard_takes_one (mkPlayer "Player 1" [] [mkCard 3 "BC"; mkCard 9 "RH"])
              (mkRng (λ _, 0) 0)) as (c & p' & g' & Hp & _ & _ & Hs & _).
  - vm_compute. lia.
  - vm_compute. lia.
  - exists c, p', g'. split; [exact Hp|exact Hs].
Defined.

(** ** Comparing cards and finding the winners *)

(** X5.  [Card.__eq__] and [Card.__gt__] look at the rank only: two cards
    of one rank are equal whatever their suits, equality is an equivalence,
    and of [a > b], [a == b] and [b > a] exactly one holds. *)
Theorem Card_comparison a b c :
  (Card_eq a b = true ↔ number a = number b)
  ∧ (Card_gt a b = true ↔ (number b < number a)%Z)
  ∧ Card_eq a a = true
  ∧ (Card_eq a b = Card_eq b a)
  ∧ (Card_eq a b = true → Card_eq b c = true → Card_eq a c = true)
  ∧ (Card_gt a b = true → Card_gt b c = true → Card_gt a c = true)
  ∧ ((Card_gt a b = true ∧ Card_eq a b = false ∧ Card_gt b a = false)
     ∨ (Card_gt a b = false ∧ Card_eq a b = true ∧ Card_gt b a = false)
     ∨ (Card_gt a b = false ∧ Card_eq a b = false ∧ Card_gt b a = true)).
Proof.
  unfold Card_eq, Card_gt. split_and!.
  - apply Z.eqb_eq.
  - apply Z.ltb_lt.
  - apply Z.eqb_refl.
  - apply Z.eqb_sym.
  - rewrite !Z.eqb_eq. congruence.
  - rewrite !Z.ltb_lt. lia.
  - destruct (Z.eqb_spec (number a) (number b)),
      (Z.ltb_spec (number b) (number a)), (Z.ltb_spec (number a) (number b));
      try lia; auto.
Qed.

Lemma Card_comparison_witness :
  Card_gt (mkCard 9 "BC") (mkCard 2 "RH") = true.
Proof.
  apply (proj1 (proj2 (proj2 (proj2 (proj2 (proj2
           (Card_comparison (mkCard 9 "BC") (mkCard 5 "RD") (mkCard 2 "RH")))))))).
  - reflexivity.
  - reflexivity.
Defined.

Lemma find_winning_players_le ps cs :
  length cs ≤ length ps → find_winning_players ps cs = Some (tied_players ps cs).
Proof.
  intros Hlen. unfold find_winning_players.
  rewrite find_winning_from_pairs by lia. rewrite drop_0. f_equal.
  rewrite winning_pairs_max by done. simpl.
  destruct (_ =? 0)%Z; simpl; unfold tied_players, highest_rank;
    by rewrite snd_zip by lia.
Qed.

Lemma find_winning_from_no_players cs : ∀ i,
  find_winning_from [] i cs [] Card_default
  = if bool_decide (Exists (λ c, (0 < number c)%Z) cs) then None else Some [].
Proof.
  induction cs as [|c cs IH]; intros i; cbn [find_winning_from].
  { rewrite bool_decide_eq_false_2; [done|]. by intros ?%Exists_nil. }
  unfold Card_gt, Card_eq. cbn [number Card_default].
  destruct (Z.eqb_spec (number c) 0) as [E0|E0].
  { rewrite IH. rewrite (bool_decide_ext _ (Exists (λ c, (0 < number c)%Z) (c :: cs))); [done|].
    rewrite Exists_cons. split; [tauto|]. intros [?|?]; [lia|done]. }
  destruct (Z.ltb_spec 0 (number c)) as [Hpos|Hneg].
  { rewrite lookup_nil. rewrite bool_decide_eq_true_2; [done|]. by left. }
  rewrite IH. rewrite (bool_decide_ext _ (Exists (λ c, (0 < number c)%Z) (c :: cs))); [done|].
  rewrite Exists_cons. split; [tauto|]. intros [?|?]; [lia|done].
Qed.

(** X6.  When every card has a player, [find_winning_players] returns, in
    the order of the round, exactly the players whose card has the highest
    rank played, provided that rank is not 0: a list without duplicates
    of players of the round when these are distinct, and empty exactly when
    no card of positive rank was played.  With no player at all it raises
    [IndexError] exactly when some card has a positive rank. *)
Theorem find_winning_players_highest ps cs :
  (length cs ≤ length ps →
     ∃ winners, find_winning_players ps cs = Some winners
       ∧ winners `sublist_of` ps
       ∧ (∀ p, p ∈ winners ↔
            ∃ k c, ps !! k = Some p ∧ cs !! k = Some c
                   ∧ number c = highest_rank cs ∧ number c ≠ 0%Z)
       ∧ (NoDup ps → NoDup winners)
       ∧ (length cs = length ps →
            (winners = [] ↔ Forall (λ c, (number c ≤ 0)%Z) cs)))
  ∧ find_winning_players [] cs
    = if bool_decide (Exists (λ c, (0 < number c)%Z) cs) then None else Some [].
Proof.
  split; [|apply find_winning_from_no_players].
  intros Hlen. exists (tied_players ps cs).
  split; [by apply find_winning_players_le|].
  split; [apply tied_players_sublist|]. split_and!.
  - intros p. split; [apply tied_players_elem|].
    intros (k & c & ? & ? & ? & ?). by eapply tied_players_intro.
  - intros Hnd. eapply sublist_NoDup; [done|apply tied_players_sublist].
  - intros Heq. split; [by apply tied_players_nil|].
    intros Hall. destruct (tied_players ps cs) as [|p tl] eqn:Ht; [done|].
    assert (Hp : p ∈ tied_players ps cs) by (rewrite Ht; by left).
    apply tied_players_elem in Hp as (k & c & _ & Hc & Hm & Hne).
    rewrite Forall_forall in Hall.
    pose proof (Hall c (list_elem_of_lookup_2 _ _ _ Hc)).
    pose proof (highest_rank_from_le cs 0%Z) as Hge. unfold highest_rank in Hm. lia.
Qed.

Lemma find_winning_players_highest_witness :
  ∃ winners,
    find_winning_players [0; 1; 2] [mkCard 7 "BC"; Card_default; mkCard 7 "RH"] = Some winners
    ∧ winners `sublist_of` [0; 1; 2].
Proof.
  destruct (proj1 (find_winning_players_highest [0; 1; 2]
                     [mkCard 7 "BC"; Card_default; mkCard 7 "RH"]))
    as (winners & Hw & Hsub & _); [simpl; lia|].
  exists winners. split; [exact Hw|exact Hsub].
Defined.

(** ** Collecting and awarding the cards of a round *)

(** X7.  [get_played_cards] never raises: it returns one card for each
    player of the round, the rank-0 card for a player without cards, and
    leaves the round counter, the table and the names as they are; no
    player gains a card.  In a world whose held cards have positive ranks
    and whose won piles hold at most 56 cards, the returned cards of
    non-zero rank together with the cards still held are the cards held
    before. *)
Theorem get_played_cards_collects ps w :
  (∃ cs w', get_played_cards ps w = Return cs w'
     ∧ length cs = length ps
     ∧ round (self w') = round (self w)
     ∧ score (self w') = score (self w)
     ∧ names w' = names w
     ∧ Forall2 (λ i c, Player_score (player_at w i) = 0 → c = Card_default) ps cs
     ∧ ∀ i, Player_score (player_at w' i) ≤ Player_score (player_at w i))
  ∧ (piles_fit w → held_real w →
     ∀ cs w', get_played_cards ps w = Return cs w' →
       filter (λ c, real c) cs ++ all_cards w' ≡ₚ all_cards w
       ∧ piles_fit w' ∧ held_real w').
Proof.
  split.
  - destruct (get_played_cards_spec ps w) as (cs & w' & Hg & Hf & Hlen & _ & Hz & _).
    destruct Hf as (Hr & Hs & _ & _ & Hn & _ & Hle & _).
    exists cs, w'. split_and!; done.
  - intros Hfit Hreal cs w' Hg.
    destruct (get_played_cards_exact ps w cs w' Hfit Hreal Hg) as (? & ? & ? & _). done.
Qed.

Lemma get_played_cards_collects_witness :
  ∃ w', get_played_cards [0; 1] war_world = Return [mkCard 7 "BC"; mkCard 7 "RH"] w'
    ∧ [mkCard 7 "BC"; mkCard 7 "RH"] ++ all_cards w' ≡ₚ all_cards war_world.
Proof.
  destruct (get_played_cards [0; 1] war_world) as [cs w'|e w'|] eqn:Hg;
    [|by vm_compute in Hg..].
  destruct (proj2 (get_played_cards_collects [0; 1] war_world)) with (cs := cs) (w' := w')
    as (Hperm & _).
  - unfold piles_fit, war_world, maxlen. simpl. repeat constructor; simpl; lia.
  - unfold held_real, war_world, cards_of. simpl. repeat constructor.
  - exact Hg.
  - vm_compute in Hg. injection Hg as <- <-. eexists. split; [reflexivity|exact Hperm].
Defined.

(** X8.  [award_cards] never raises; it changes the winner only, whose hand
    is kept and whose won pile receives, at its end, the played cards and
    then the cards of the field that have a non-zero rank: the cards held
    grow by exactly these, and rank-0 cards never enter a pile. *)
Theorem award_cards_gives winner cs field w :
  ∃ w', award_cards winner cs field w = Return tt w'
    ∧ (∀ j, j ≠ winner → player_at w' j = player_at w j)
    ∧ round (self w') = round (self w)
    ∧ score (self w') = score (self w)
    ∧ names w' = names w
    ∧ (winner < length (players (self w)) →
       hand (player_at w' winner) = hand (player_at w winner)
       ∧ won_cards (player_at w' winner)
         = won_cards (player_at w winner)
             ++ filter (λ c, real c) cs ++ filter (λ c, real c) field
       ∧ all_cards w' ≡ₚ all_cards w ++ filter (λ c, real c) cs ++ filter (λ c, real c) field
       ∧ total_score (players (self w'))
         = total_score (players (self w))
           + length (filter (λ c, real c) cs) + length (filter (λ c, real c) field)
       ∧ (Forall (λ c, number c ≠ 0%Z) (cards_of (player_at w winner)) →
          Forall (λ c, number c ≠ 0%Z) (cards_of (player_at w' winner)))).
Proof.
  destruct (award_cards_spec winner cs field w) as (w' & Ha & Hps & Hn & Hs & Hr).
  exists w'. split; [done|]. split_and!; try done.
  - intros j Hj. rewrite (player_at_insert _ _ _ j _ Hps).
    rewrite decide_False; [done|]. intros [? _]. done.
  - intros Hlt. rewrite (player_at_insert _ _ _ winner _ Hps), decide_True by done.
    pose proof (award_cards_all_cards _ _ _ _ _ Hlt Ha) as Hperm.
    unfold awarded. cbn [hand won_cards]. split_and!; [done|by rewrite <- app_assoc|done| |].
    + rewrite !total_score_all_cards, Hperm, !length_app. lia.
    + unfold cards_of. cbn [hand won_cards]. rewrite !Forall_app.
      intros [Hh Hw]. split_and!; [done|done| |].
      * apply Forall_forall. intros c [Hc _]%list_elem_of_filter.
        unfold real in Hc. intros E. apply Z.eqb_eq in E. by rewrite E in Hc.
      * apply Forall_forall. intros c [Hc _]%list_elem_of_filter.
        unfold real in Hc. intros E. apply Z.eqb_eq in E. by rewrite E in Hc.
Qed.

Lemma award_cards_gives_witness :
  ∃ w', award_cards 1 [mkCard 4 "BC"; Card_default] [mkCard 2 "RH"] war_world = Return tt w'
    ∧ total_score (players (self w')) = 6 + 1 + 1.
Proof.
  destruct (award_cards_gives 1 [mkCard 4 "BC"; Card_default] [mkCard 2 "RH"] war_world)
    as (w' & Ha & _ & _ & _ & _ & Hin).
  destruct Hin as (_ & _ & _ & Ht & _); [vm_compute; lia|].
  exists w'. split; [exact Ha|exact Ht].
Defined.

(** ** Rounds *)

(** X9.  A round that returns conserves the cards in play: in a world
    whose held cards have positive ranks, with at most 56 cards held, the
    cards held after [playRound] are the cards held before together with
    the cards of non-zero rank of the field it was given; with the empty
    field of [playGame], the sum of the scores is unchanged. *)
Theorem playRound_conserves fuel ps field w w' :
  held_real w →
  total_score (players (self w)) ≤ maxlen →
  playRound fuel ps field w = Return tt w' →
  all_cards w' ≡ₚ all_cards w ++ filter (λ c, real c) field
  ∧ total_score (players (self w'))
    = total_score (players (self w)) + length (filter (λ c, real c) field)
  ∧ (field = [] → total_score (players (self w')) = total_score (players (self w))).
Proof.
  intros Hreal Htot Hrun.
  pose proof (playRound_conserves_cards _ _ _ _ _ (piles_fit_total w Htot) Hreal Hrun) as Hp.
  split; [done|]. rewrite !total_score_all_cards, Hp, length_app.
  split; [done|]. intros ->. simpl. lia.
Qed.

Lemma playRound_conserves_witness :
  ∃ w', playRound 2 [0; 1] [] war_world = Return tt w'
    ∧ total_score (players (self w')) = total_score (players (self war_world)).
Proof.
  destruct (playRound 2 [0; 1] [] war_world) as [[] w'|e w'|] eqn:Hrun;
    [|by vm_compute in Hrun..].
  destruct (playRound_conserves 2 [0; 1] [] war_world w') as (_ & _ & Ht).
  - unfold held_real, war_world, cards_of. simpl. repeat constructor.
  - vm_compute. lia.
  - exact Hrun.
  - exists w'. split; [reflexivity|]. by apply Ht.
Defined.

(** X10.  Where the names of the players are distinct columns, a round
    that returns has advanced the round counter by at least one (by one more
    for every war) and appended one row, which is [latestResults]: its
    columns are [Round], the players in their order and [Total]; [Round] is
    the counter, every player's column is the player's score and [Total] is
    their sum.  A round that raises has advanced the counter too and leaves
    the table as it was: it raises [IndexError], with [latestResults] as it
    was, or, after the award to its winner, [TypeError], when the round
    counter or the total is beyond the [Int16] columns, with
    [latestResults] replaced by the row that was refused. *)
Theorem playRound_counter_and_row fuel ps field w :
  names_ok w →
  (∀ w', playRound fuel ps field w = Return tt w' →
     (round (self w) < round (self w'))%Z
     ∧ score (self w') = score (self w) ++ [latestResults (self w')]
     ∧ (latestResults (self w')).*1 = "Round" :: names w ++ ["Total"]
     ∧ dict_get "Round" (latestResults (self w')) = Some (round (self w'))
     ∧ dict_get "Total" (latestResults (self w'))
       = Some (Z.of_nat (total_score (players (self w'))))
     ∧ Forall (λ p, dict_get (name p) (latestResults (self w'))
                    = Some (Z.of_nat (Player_score p))) (players (self w')))
  ∧ (∀ e w', playRound fuel ps field w = Raise e w' →
       (round (self w) < round (self w'))%Z
       ∧ score (self w') = score (self w)
       ∧ ((e = IndexError ∧ latestResults (self w') = latestResults (self w))
          ∨ (e = TypeError
             ∧ ¬ row_fits w'
             ∧ latestResults (self w') = scoreboard_row (self w')))).
Proof.
  intros Hok. pose proof (playRound_outcome fuel ps field w Hok) as Hout. split.
  - intros w' Hrun. rewrite Hrun in Hout. destruct Hout as (Hr & Hs & Hl & Hn & _).
    assert (Hok' : names_ok w') by by eapply names_ok_eq.
    destruct Hok' as (Hnd & HR & HT). unfold names in Hnd, HR, HT.
    set (kvs := (λ p, (name p, Z.of_nat (Player_score p))) <$> players (self w')) in *.
    assert (Hkeys : kvs.*1 = name <$> players (self w')).
    { unfold kvs. by rewrite <- list_fmap_compose. }
    destruct (row_layout (round (self w')) (Z.of_nat (total_score (players (self w')))) kvs)
      as [_ Hall]; [by rewrite Hkeys..|].
    rewrite <- Hl in Hall.
    split_and!; [done|done| | | |].
    + rewrite Hl, fmap_cons, fmap_app, Hkeys. unfold names in Hn. by rewrite Hn.
    + rewrite Hl. done.
    + apply dict_get_elem; [done|]. rewrite Hl.
      apply elem_of_cons. right. apply elem_of_app. right. by left.
    + apply Forall_forall. intros p Hp. apply dict_get_elem; [done|]. rewrite Hl.
      apply elem_of_cons. right. apply elem_of_app. left.
      apply list_elem_of_fmap. by exists p.
  - intros e w' Hrun. rewrite Hrun in Hout. destruct Hout as (Hr & Hs & _ & _ & Hcase).
    done.
Qed.

(** The war of [war_world] returns with its row; the same war begun at
    round 32767 ends at round 32769 with the award made and the row
    refused. *)
Lemma playRound_counter_and_row_witness :
  (∃ w', playRound 2 [0; 1] [] war_world = Return tt w'
     ∧ (round (self war_world) < round (self w'))%Z
     ∧ dict_get "Round" (latestResults (self w')) = Some (round (self w')))
  ∧ (∃ w', playRound 2 [0; 1] [] late_world = Raise TypeError w'
       ∧ score (self w') = score (self late_world)
       ∧ round (self w') = 32769%Z
       ∧ Player_score (player_at w' 0) = 6).
Proof.
  split.
  - destruct (playRound 2 [0; 1] [] war_world) as [[] w'|e w'|] eqn:Hrun;
      [|by vm_compute in Hrun..].
    destruct (proj1 (playRound_counter_and_row 2 [0; 1] [] war_world
                       ltac:(split_and!; by apply (bool_decide_unpack _))) w' Hrun)
      as (Hr & _ & _ & HR & _).
    exists w'. split; [reflexivity|]. split; [exact Hr|exact HR].
  - destruct (playRound 2 [0; 1] [] late_world) as [[] w'|e w'|] eqn:Hrun;
      [by vm_compute in Hrun| |by vm_compute in Hrun].
    destruct (proj2 (playRound_counter_and_row 2 [0; 1] [] late_world
                       ltac:(split_and!; by apply (bool_decide_unpack _))) e w' Hrun)
      as (_ & Hs & _).
    exists w'. vm_compute in Hrun. injection Hrun as <- <-.
    split; [reflexivity|]. split; [exact Hs|]. split; reflexivity.
Defined.

(** ** The whole game *)

Lemma game_loop_outcome fuel : ∀ w,
  names_ok w →
  match game_loop fuel w with
  | Return _ w' =>
      (round (self w) ≤ round (self w'))%Z
      ∧ names w' = names w ∧ scoreSchema (self w') = scoreSchema (self w)
      ∧ isWinner w' = true
  | Raise e w' =>
      (round (self w) < round (self w'))%Z
      ∧ names w' = names w ∧ scoreSchema (self w') = scoreSchema (self w)
      ∧ (e = IndexError ∨ (e = TypeError ∧ ¬ row_fits w'))
  | OutOfFuel => True
  end.
Proof.
  induction fuel as [|fuel IH]; intros w Hok; [done|].
  cbn [game_loop]. destruct (isWinner w) eqn:Hw; [split_and!; [lia|done..]|].
  pose proof (playRound_outcome fuel (all_players w) [] w Hok) as Hout.
  destruct (playRound fuel (all_players w) [] w) as [[] w1|e w1|] eqn:Hrun.
  - rewrite (bind_Return _ _ _ _ _ Hrun). destruct Hout as (Hr & _ & _ & Hn & Hsch).
    assert (Hok1 : names_ok w1) by by eapply names_ok_eq.
    specialize (IH w1 Hok1). destruct (game_loop fuel w1) as [[] w'|e w'|]; [| |done].
    + destruct IH as (? & ? & ? & ?). split_and!; [lia|congruence|congruence|done].
    + destruct IH as (? & ? & ? & ?). split_and!; [lia|congruence|congruence|done].
  - rewrite (bind_Raise _ _ _ _ _ Hrun). destruct Hout as (? & _ & ? & ? & Hcase).
    split_and!; [done..|].
    destruct Hcase as [[-> _]|(-> & ? & _)]; [by left|by right].
  - by rewrite (bind_OutOfFuel _ _ _ Hrun).
Qed.

(** The players never hold more cards than at the start of the loop. *)
Lemma game_loop_total fuel : ∀ w w',
  final_world (game_loop fuel w) = Some w' →
  total_score (players (self w')) ≤ total_score (players (self w)).
Proof.
  induction fuel as [|fuel IH]; intros w w' Hfin; [done|].
  cbn [game_loop] in Hfin. destruct (isWinner w).
  { by injection Hfin as <-. }
  destruct (playRound fuel (all_players w) [] w) as [[] w1|e w1|] eqn:Hrun.
  - rewrite (bind_Return _ _ _ _ _ Hrun) in Hfin.
    pose proof (playRound_total fuel (all_players w) [] w w1) as Hle.
    rewrite Hrun in Hle. specialize (Hle eq_refl). simpl in Hle.
    specialize (IH _ _ Hfin). lia.
  - rewrite (bind_Raise _ _ _ _ _ Hrun) in Hfin. injection Hfin as <-.
    pose proof (playRound_total fuel (all_players w) [] w w1) as Hle.
    rewrite Hrun in Hle. specialize (Hle eq_refl). simpl in Hle. lia.
  - rewrite (bind_OutOfFuel _ _ _ Hrun) in Hfin. discriminate Hfin.
Qed.

(** The row of the deal fits the table. *)
Lemma deal_row_fits playersCount t w w1 :
  new_game playersCount t = inr w →
  distributeCards w = Return tt w1 →
  row_fits w1 ∧ total_score (players (self w1)) ≤ 52.
Proof.
  intros Hnew Hd.
  destruct (distributeCards_new_game _ _ _ Hnew)
    as (w1' & Hd' & _ & _ & _ & Ht & _ & _ & Hr).
  rewrite Hd in Hd'. injection Hd' as <-. clear Hd Hnew.
  assert (Hle : total_score (players (self w1)) ≤ 52).
  { rewrite Ht. destruct (Z.to_nat playersCount) as [|n]; [lia|].
    apply Nat.Div0.mul_div_le. }
  split; [|exact Hle]. split; [rewrite Hr; lia|lia].
Qed.

(** X11.  Up to the end of its loop, before the file of the table is
    written, [playGame] on a new game raises nothing but [IndexError] and
    [TypeError], the latter only with the round counter beyond 32767, the
    largest value of the [Int16] column of the rounds; and it raises only
    from within a round: the round counter is then positive and the table
    has at least the row of the deal.  The assertion of the constructor,
    not [playGame], is what raises [AssertionError]; the division in
    [distributeCards] never fails. *)
Theorem playGame_raises playersCount t fuel w e w' :
  new_game playersCount t = inr w →
  playGame fuel w = Raise e w' →
  (e = IndexError ∨ (e = TypeError ∧ (32767 < round (self w'))%Z))
  ∧ (0 < round (self w'))%Z
  ∧ score (self w') ≠ []
  ∧ names w' = names w.
Proof.
  intros Hnew Hrun.
  destruct (new_game_names_ok _ _ _ Hnew) as (Hok & _).
  destruct (distributeCards_new_game _ _ _ Hnew)
    as (w1 & Hd & _ & _ & _ & _ & Hn1 & Hs1 & Hr1).
  destruct (deal_row_fits _ _ _ _ Hnew Hd) as (Hfit1 & Hle1).
  clear Hnew. rewrite playGame_eq, (bind_Return _ _ _ _ _ Hd) in Hrun. clear Hd.
  assert (Hok1 : names_ok w1) by by eapply names_ok_eq.
  destruct (update_scoreboard_spec w1 Hok1 Hfit1) as (w2 & Hu & Hp2 & Hr2 & _ & Hs2 & _).
  rewrite (bind_Return _ _ _ _ _ Hu) in Hrun.
  assert (Hn2 : names w2 = names w1) by (unfold names; by rewrite Hp2).
  assert (Hok2 : names_ok w2) by by eapply names_ok_eq.
  pose proof (game_loop_outcome fuel w2 Hok2) as Hout. rewrite Hrun in Hout.
  destruct Hout as (Hr & Hn & _ & Hcase).
  destruct (game_loop_table fuel w2 w' Hok2) as (_ & rows & Hs & _); [by rewrite Hrun|].
  pose proof (game_loop_total fuel w2 w') as Htot.
  rewrite Hrun in Htot. specialize (Htot eq_refl). rewrite Hp2 in Htot.
  split_and!; [|lia| |congruence].
  - destruct Hcase as [->|[-> Hno]]; [by left|right]. split; [done|].
    unfold row_fits in Hno. lia.
  - rewrite Hs, Hs2. by destruct (score (self w1)).
Qed.

Lemma playGame_raises_witness :
  ∃ w', playGame 100
          (mkWorld (mkGame [Player_init "Player 1"; Player_init "Player 2"] 0
                      [("Round", Int16); ("Player 1", Int16); ("Player 2", Int16);
                       ("Total", Int16)] [] []) (mkRng tie_tape 0))
        = Raise IndexError w'
    ∧ (0 < round (self w'))%Z.
Proof.
  destruct (playGame 100 _) as [[] w'|e w'|] eqn:Hrun;
    [by vm_compute in Hrun| |by vm_compute in Hrun].
  destruct (playGame_raises 2 tie_tape 100 _ e w' eq_refl Hrun) as (_ & Hr & _).
  exists w'. split; [|exact Hr].
  vm_compute in Hrun. injection Hrun as <- <-. reflexivity.
Defined.

(** X13.  In a game of two or four players, however [playGame] ends, every
    row of the table has the columns of the schema ([Round], the players,
    [Total]) and the total 52; the first row is the deal, with round 0, and
    the rounds of the rows increase strictly and stay within the round
    counter. *)
Theorem playGame_table playersCount t fuel w w' :
  playersCount = 2%Z ∨ playersCount = 4%Z →
  new_game playersCount t = inr w →
  final_world (playGame fuel w) = Some w' →
  (scoreSchema (self w')).*1 = "Round" :: names w ++ ["Total"]
  ∧ Forall (λ r, r.*1 = (scoreSchema (self w')).*1 ∧ dict_get "Total" r = Some 52%Z)
      (score (self w'))
  ∧ ∃ ks, round_column (score (self w')) = Some <$> (0%Z :: ks)
          ∧ StronglySorted Z.lt (0%Z :: ks)
          ∧ Forall (λ k, (k ≤ round (self w'))%Z) ks.
Proof.
  intros Hn Hnew Hfin.
  destruct (start_in_play _ _ _ Hn Hnew)
    as (w1 & w2 & Hd & Hu & Hin2 & Htab2 & Hs2 & Hround & _).
  pose proof (new_game_schema _ _ _ Hnew) as Hsch.
  destruct (new_game_names_ok _ _ _ Hnew) as (Hok & _).
  destruct (distributeCards_table w w1) as (Hn1 & _); [by rewrite Hd|].
  pose proof (distributeCards_schema _ _ Hd) as Hsch1.
  destruct (update_scoreboard_fields w1 w2) as (Hsch2 & Hp2 & _); [by rewrite Hu|].
  clear Hnew. rewrite playGame_eq, (bind_Return _ _ _ _ _ Hd) in Hfin. clear Hd.
  rewrite (bind_Return _ _ _ _ _ Hu) in Hfin.
  assert (Hok2 : names_ok w2) by apply Hin2.
  pose proof (game_loop_inv fuel w2 Hin2 Htab2) as Hinv.
  pose proof (game_loop_outcome fuel w2 Hok2) as Hout.
  destruct (game_loop_table fuel w2 w' Hok2 Hfin) as (_ & rows & Hs & _).
  assert (Htab : table_inv w' ∧ scoreSchema (self w') = scoreSchema (self w2)).
  { destruct (game_loop fuel w2) as [[] w''|e w''|]; [| |done]; injection Hfin as ->.
    - split; [apply Hinv|apply Hout].
    - split; [exact Hinv|apply Hout]. }
  destruct Htab as ((Hrows & ks & Hks & Hsort & Hle) & Hsch').
  split_and!.
  - rewrite Hsch', Hsch2, Hsch1, Hsch. done.
  - eapply Forall_impl; [exact Hrows|]. intros r [? ?]. done.
  - rewrite Hs, Hs2 in Hks. unfold round_column in Hks. cbn [app fmap list_fmap] in Hks.
    rewrite Hround in Hks. destruct ks as [|k ks]; [discriminate Hks|].
    cbn [fmap list_fmap] in Hks. injection Hks as <- Hks.
    exists ks. split_and!.
    + rewrite Hs, Hs2. unfold round_column. cbn [app fmap list_fmap].
      rewrite Hround. by f_equal.
    + done.
    + by apply Forall_cons in Hle as [_ ?].
Qed.

Lemma playGame_table_witness :
  ∃ w', playGame 27 (mkWorld (mkGame [Player_init "Player 1"; Player_init "Player 2"] 0
                                [("Round", Int16); ("Player 1", Int16); ("Player 2", Int16);
                                 ("Total", Int16)] [] []) (mkRng high_tape 0))
        = Return tt w'
    ∧ Forall (λ r, r.*1 = (scoreSchema (self w')).*1 ∧ dict_get "Total" r = Some 52%Z)
        (score (self w')).
Proof.
  destruct (playGame 27 _) as [[] w'|e w'|] eqn:Hrun; [|by vm_compute in Hrun..].
  exists w'. split; [reflexivity|].
  apply (playGame_table 2 high_tape 27 _ w' (or_introl eq_refl) eq_refl).
  exact (f_equal final_world Hrun).
Defined.

Lemma tied_players_sentinels ps n : tied_players ps (replicate n Card_default) = [].
Proof.
  unfold tied_players. generalize (highest_rank (replicate n Card_default)). intros m.
  revert ps. induction n as [|n IH]; intros [|p ps]; try done.
  cbn [replicate zip zip_with]. rewrite filter_cons_False by (simpl; lia). apply IH.
Qed.

Lemma playRound_cardless fuel ps field w :
  Forall (λ i, Player_score (player_at w i) = 0) ps →
  playRound (S fuel) ps field w = Raise IndexError (next_round w).
Proof.
  intros Hall.
  rewrite (playRound_step _ _ _ _ (replicate (length ps) Card_default) (next_round w)).
  - by rewrite tied_players_sentinels.
  - by apply get_played_cards_no_cards.
Qed.

(** X14.  With 56 players, a count the constructor accepts, every hand is
    dealt [52 // 56 = 0] cards: the row of the deal has the total 0, and
    [playGame] raises [IndexError] in its first round, whatever the
    shuffle, with the round counter at 1. *)
Theorem playGame_56_players t fuel :
  ∃ w w1 w2,
    new_game 56 t = inr w
    ∧ distributeCards w = Return tt w1
    ∧ Forall (λ p, Player_score p = 0) (players (self w1))
    ∧ update_scoreboard w1 = Return tt w2
    ∧ dict_get "Total" (latestResults (self w2)) = Some 0%Z
    ∧ playGame (S (S fuel)) w = Raise IndexError (next_round w2)
    ∧ round (self (next_round w2)) = 1%Z
    ∧ score (self (next_round w2)) = [latestResults (self w2)].
Proof.
  destruct (new_game 56 t) as [e|w] eqn:Hnew; [by vm_compute in Hnew|].
  destruct (new_game_names_ok _ _ _ Hnew) as (Hok & _).
  destruct (distributeCards_new_game _ _ _ Hnew)
    as (w1 & Hd & _ & _ & _ & Ht & Hn1 & Hs1 & Hr1).
  destruct (deal_row_fits _ _ _ _ Hnew Hd) as (Hfit1 & _).
  clear Hnew. change (Z.to_nat 56 * (52 / Z.to_nat 56)) with 0 in Ht.
  assert (Hok1 : names_ok w1) by by eapply names_ok_eq.
  destruct (update_scoreboard_spec w1 Hok1 Hfit1)
    as (w2 & Hu & Hp2 & Hr2 & _ & Hs2 & _ & _ & Ht2).
  destruct (no_cards_concat _ Ht) as [_ Hz].
  exists w, w1, w2. split; [reflexivity|]. split; [exact Hd|].
  rewrite playGame_eq, (bind_Return _ _ _ _ _ Hd), (bind_Return _ _ _ _ _ Hu). clear Hd.
  split; [exact Hz|]. split; [exact Hu|]. clear Hu.
  split; [by rewrite Ht2, Ht|].
  assert (Hw : isWinner w2 = false).
  { apply not_true_is_false. rewrite isWinner_iff, Hp2, Exists_exists.
    intros (p & Hp & H52). rewrite Forall_forall in Hz. rewrite (Hz p Hp) in H52. lia. }
  assert (Hall : Forall (λ i, Player_score (player_at w2 i) = 0) (all_players w2)).
  { apply Forall_forall. intros i _. unfold player_at. rewrite Hp2.
    destruct (players (self w1) !! i) as [q|] eqn:Hq; [|done].
    rewrite Forall_forall in Hz. exact (Hz q (list_elem_of_lookup_2 _ _ _ Hq)). }
  cbn [game_loop]. rewrite Hw.
  rewrite (bind_Raise _ _ _ _ _ (playRound_cardless fuel _ [] w2 Hall)).
  split; [reflexivity|]. cbn [next_round self round score].
  rewrite Hr2, Hr1, Hs2, Hs1. done.
Qed.

(** X15.  The game that the constructor builds names its players
    [Player 1] to [Player n], all different; the schema of the table has the
    columns [Round], the players in their order and [Total], each a 16-bit
    integer column, and none of the players' names is [Round] or [Total]. *)
Theorem init_names_and_schema playersCount c :
  init playersCount = inr c →
  name <$> players c
  = (λ i : nat, "Player " +:+ pretty (i + 1)) <$> seq 0 (Z.to_nat playersCount)
  ∧ NoDup (name <$> players c)
  ∧ ("Round" ∉ name <$> players c) ∧ ("Total" ∉ name <$> players c)
  ∧ (scoreSchema c).*1 = "Round" :: (name <$> players c) ++ ["Total"]
  ∧ Forall (λ kv, kv.2 = Int16) (scoreSchema c).
Proof.
  intros Hi.
  assert (Hnew : new_game playersCount (λ _, 0) = inr (mkWorld c (mkRng (λ _, 0) 0))).
  { unfold new_game. by rewrite Hi. }
  destruct (new_game_names_ok _ _ _ Hnew) as ((Hnd & HR & HT) & _ & Hnames).
  pose proof (new_game_schema _ _ _ Hnew) as Hsch.
  unfold names in *. cbn [self] in *. split_and!; try done.
  clear Hnew Hsch. unfold init in Hi. destruct (_ && _); [|discriminate Hi].
  injection Hi as <-. cbn [players scoreSchema] in *.
  set (ps := (λ i, Player_init ("Player " +:+ pretty (i + 1))) <$> _) in *.
  change (dict_set "Total" Int16 ?d) with (dict_union d [("Total", Int16)]).
  destruct (row_layout Int16 Int16 ((λ p, (name p, Int16)) <$> ps)) as [-> _].
  1-3: by rewrite <- list_fmap_compose.
  constructor; [done|]. apply Forall_app. split; [|by constructor].
  apply Forall_fmap, Forall_forall. intros p _. done.
Qed.

Lemma init_names_and_schema_witness :
  (scoreSchema (mkGame [Player_init "Player 1"; Player_init "Player 2"] 0
                  [("Round", Int16); ("Player 1", Int16); ("Player 2", Int16);
                   ("Total", Int16)] [] [])).*1
  = ["Round"; "Player 1"; "Player 2"; "Total"].
Proof.
  exact (proj1 (proj2 (proj2 (proj2 (proj2
           (init_names_and_schema 2 _ eq_refl)))))).
Defined.
